(** * movie-lens-recommender: user-based collaborative filtering

    A shallow embedding of [movie-logic.js] (the command-line recommender) and
    of its HTTP twin (the express server with [/postUserRatings]), followed by
    the properties of the similarity engine, the neighbourhood selector, the
    rating predictor and the two orchestrators.

    Numbers.  JavaScript numbers are modelled by the real numbers [R]: [+],
    [-], [*], [/], [Math.pow(x, 2)] and [Math.sqrt] are the exact operations.
    The only point where the source can produce a non-real ([NaN]) from real
    ratings is [_.meanBy] of an empty array; that value is never consumed,
    because the loop over the common movies is then empty (see
    [similarityFrom_nil_l] and [similarityFrom_nil_r]).  Where the rounding
    of binary64 numbers decides a property, [Binary64] holds the similarity
    on the machine numbers themselves.

    Identifiers.  Property keys of a JS object are strings.  A key that is the
    decimal numeral of a natural number [n] is written [KIdx n]; the key
    ["NaN"] is written [KNaN].  A user id handed to [findNearestNeighbors] is
    a JS value, either a number or a string, and strict (in)equality [!==]
    distinguishes the two. *)

From Stdlib Require Import Reals Lra Lia ZArith NArith List Bool String.
From Stdlib Require Import Psatz Sorted Permutation.
From Corelib Require PrimFloat.
From Stdlib Require Uint63.
Import ListNotations.

Local Open Scope R_scope.

(** ** Data model *)

(** [{ movieId, rating }], one entry of a user's rating array. *)
Record ItemRating : Type := mkItemRating {
  movieId : Z;
  rating : R
}.

Definition UserRatingVector : Type := list ItemRating.

(** [{ title, genres }], one catalog entry. *)
Record ItemMeta : Type := mkItemMeta {
  title : string;
  genres : string
}.

(** Property keys of the [ratingsData] object. *)
Inductive PropKey : Type :=
| KIdx (n : N)
| KNaN.

(** The JS value passed as [userId]. *)
Inductive JsId : Type :=
| IdNum (n : N)
| IdNaN
| IdStr (k : PropKey).

(** [ratingsData], as [Object.entries] enumerates it. *)
Definition RatingsTable : Type := list (PropKey * UserRatingVector).

(** [movies], as [Object.entries] enumerates it, each key read back as a
    number by [+key]. *)
Definition Catalog : Type := list (Z * ItemMeta).

(** [{ userId, similarity, ratings }]. *)
Record NeighborRecord : Type := mkNeighbor {
  nUserId : PropKey;
  similarity : R;
  nRatings : UserRatingVector
}.

(** What [predictRating] returns: the string produced by [toFixed(1)], kept
    as its number of tenths (["4.0"] is [PFixed 40]), or the number [1]. *)
Inductive Prediction : Type :=
| PFixed (tenths : Z)
| POne.

(** [{ movieId, title, genres, predictedRating }]. *)
Record PredictedRating : Type := mkPredicted {
  pMovieId : Z;
  pTitle : string;
  pGenres : string;
  predictedRating : Prediction
}.

(** ** JavaScript and lodash primitives *)

Module Js.

Definition Rltb (x y : R) : bool := if Rlt_dec x y then true else false.

Definition propKey_eqb (a b : PropKey) : bool :=
  match a, b with
  | KIdx n, KIdx m => N.eqb n m
  | KNaN, KNaN => true
  | _, _ => false
  end.

(** [`${userId}`], also the key used by [obj[userId]]. *)
Definition toPropertyKey (id : JsId) : PropKey :=
  match id with
  | IdNum n => KIdx n
  | IdNaN => KNaN
  | IdStr k => k
  end.

(** [key !== id] for a string [key]: a string is never strictly equal to a
    number. *)
Definition strictNeq (key : PropKey) (id : JsId) : bool :=
  match id with
  | IdNum _ => true
  | IdNaN => true
  | IdStr k => negb (propKey_eqb key k)
  end.

(** [obj[key]]. *)
Fixpoint get {A : Type} (obj : list (PropKey * A)) (key : PropKey) : option A :=
  match obj with
  | [] => None
  | (k, v) :: rest => if propKey_eqb k key then Some v else get rest key
  end.

(** An array index: an integer key below [2^32 - 1]. *)
Definition isIndex (n : N) : bool := N.ltb n 4294967295.

(** Position of a new key in the enumeration order: array indices
    ascending, then every other key in insertion order. *)
Definition keyBefore (a b : PropKey) : bool :=
  match a, b with
  | KIdx n, KIdx m => isIndex n && (negb (isIndex m) || N.ltb n m)
  | KIdx n, KNaN => isIndex n
  | KNaN, _ => false
  end.

(** [obj[key] = v]: an existing property keeps its place. *)
Fixpoint set {A : Type} (obj : list (PropKey * A)) (key : PropKey) (v : A)
  : list (PropKey * A) :=
  match obj with
  | [] => [(key, v)]
  | (k, w) :: rest =>
      if propKey_eqb k key then (key, v) :: rest
      else if keyBefore key k then (key, v) :: (k, w) :: rest
      else (k, w) :: set rest key v
  end.

(** [Array.prototype.slice(0, k)]. *)
Definition slice0 {A : Type} (k : nat) (l : list A) : list A := firstn k l.

(** [Array.prototype.sort((a, b) => key(b) - key(a))]: the sort is stable,
    so the result is the one of a stable insertion sort, where an element
    moves behind exactly those elements whose key is strictly greater. *)
Fixpoint insertDesc {A : Type} (key : A -> R) (x : A) (l : list A) : list A :=
  match l with
  | [] => [x]
  | y :: l' => if Rltb (key x) (key y) then y :: insertDesc key x l' else x :: l
  end.

Definition sortDescBy {A : Type} (key : A -> R) (l : list A) : list A :=
  fold_right (insertDesc key) [] l.

(** [x.toFixed(1)] as a number of tenths: the integer [n] with [n / 10]
    closest to [x], the larger one on a tie, the sign being handled apart
    (these are the digits [toFixed] prints for a number below [1e21]). *)
Definition toFixed1 (x : R) : Z :=
  if Rlt_dec x 0 then (- Int_part (10 * (- x) + / 2))%Z
  else Int_part (10 * x + / 2).

End Js.

Module Lodash.

(** [baseSum]: the running sum of the iteratee over the array. *)
Definition sumBy (l : UserRatingVector) : R :=
  fold_left (fun acc r => acc + rating r) l 0.

(** [_.meanBy(array, r => r.rating)]: [baseSum / length]. *)
Definition meanBy (l : UserRatingVector) : R :=
  sumBy l / INR (List.length l).

Definition includes (x : Z) (l : list Z) : bool := existsb (Z.eqb x) l.

(** [baseIntersection] on two arrays with the iteratee ['movieId']: the
    elements of the first array, in its order, whose computed value is in
    the second array and was not yet seen.  (The library also leaves the loop
    once the result is as long as the shorter array; nothing could be added
    after that point.) *)
Fixpoint baseIntersection (seen : list Z) (array : UserRatingVector)
    (other : list Z) : UserRatingVector :=
  match array with
  | [] => []
  | value :: rest =>
      let computed := movieId value in
      if includes computed seen then baseIntersection seen rest other
      else if includes computed other
           then value :: baseIntersection (computed :: seen) rest other
           else baseIntersection seen rest other
  end.

Definition intersectionBy (a b : UserRatingVector) : UserRatingVector :=
  baseIntersection [] a (map movieId b).

End Lodash.

(** ** The recommender *)

(** The three accumulators of [calculateSimilarity]. *)
Record PearsonAcc : Type := mkAcc {
  numerator : R;
  sum1 : R;
  sum2 : R
}.

(** One round of [commonMovies.forEach]. *)
Definition pearsonStep (avg1 avg2 : R) (acc : PearsonAcc) (movie : ItemRating)
  : PearsonAcc :=
  {| numerator := numerator acc + (rating movie - avg1) * (rating movie - avg2);
     sum1 := sum1 acc + (rating movie - avg1) ^ 2;
     sum2 := sum2 acc + (rating movie - avg2) ^ 2 |}.

(** The body of [calculateSimilarity] once the two averages are known. *)
Definition similarityFrom (avg1 avg2 : R) (user1Ratings user2Ratings : UserRatingVector)
  : R :=
  let commonMovies := Lodash.intersectionBy user1Ratings user2Ratings in
  let acc := fold_left (pearsonStep avg1 avg2) commonMovies (mkAcc 0 0 0) in
  if Req_dec_T (sum1 acc * sum2 acc) 0 then 0
  else numerator acc / sqrt (sum1 acc * sum2 acc).

Definition calculateSimilarity (user1Ratings user2Ratings : UserRatingVector) : R :=
  let avg1 := Lodash.meanBy user1Ratings in
  let avg2 := Lodash.meanBy user2Ratings in
  similarityFrom avg1 avg2 user1Ratings user2Ratings.

(** [findNearestNeighbors(userId, ratingsData, k)].  [ratingsData[`${userId}`]]
    of a missing user is [undefined], which [calculateSimilarity] treats like
    an empty array (no common movie, result [0]). *)
Definition targetRatings (userId : JsId) (ratingsData : RatingsTable)
  : UserRatingVector :=
  match Js.get ratingsData (Js.toPropertyKey userId) with
  | Some ratings => ratings
  | None => []
  end.

(** One round of [Object.entries(ratingsData).forEach]. *)
Definition neighborStep (userId : JsId) (ratingsData : RatingsTable)
    (similarities : list NeighborRecord) (entry : PropKey * UserRatingVector)
  : list NeighborRecord :=
  let (user2Id, ratings) := entry in
  if Js.strictNeq user2Id userId then
    let sim := calculateSimilarity (targetRatings userId ratingsData) ratings in
    similarities ++ [mkNeighbor user2Id sim ratings]
  else similarities.

Definition findNearestNeighbors (userId : JsId) (ratingsData : RatingsTable)
    (k : nat) : list NeighborRecord :=
  let similarities := fold_left (neighborStep userId ratingsData) ratingsData [] in
  Js.slice0 k (Js.sortDescBy similarity similarities).

(** [neighbor.ratings.find((r) => r.movieId === movieId)]. *)
Definition findRating (mid : Z) (ratings : UserRatingVector) : option ItemRating :=
  find (fun r => Z.eqb (movieId r) mid) ratings.

(** One round of [neighbors.forEach] in [predictRating]; the pair is
    [(weightedSum, similaritySum)]. *)
Definition predictStep (mid : Z) (acc : R * R) (neighbor : NeighborRecord) : R * R :=
  match findRating mid (nRatings neighbor) with
  | Some neighborRating =>
      (fst acc + rating neighborRating * similarity neighbor,
       snd acc + similarity neighbor)
  | None => acc
  end.

Definition predictRating (mid : Z) (neighbors : list NeighborRecord) : Prediction :=
  let acc := fold_left (predictStep mid) neighbors (0, 0) in
  let weightedSum := fst acc in
  let similaritySum := snd acc in
  if Rlt_dec 0 similaritySum then PFixed (Js.toFixed1 (weightedSum / similaritySum))
  else POne.

(** The number a [predictedRating] stands for in [b.predictedRating -
    a.predictedRating]. *)
Definition toNumber (p : Prediction) : R :=
  match p with
  | PFixed n => IZR n / 10
  | POne => 1
  end.

(** [_.maxBy(Object.keys(ratingsData), parseInt)]: the greatest integer key,
    [undefined] when there is none. *)
Definition maxKey (ratingsData : RatingsTable) : option N :=
  fold_left
    (fun best entry =>
       match fst entry, best with
       | KIdx n, None => Some n
       | KIdx n, Some m => if N.ltb m n then Some n else Some m
       | KNaN, _ => best
       end)
    ratingsData None.

(** The binary64 number nearest to a natural number, ties to even: what
    [parseInt] and [+] make of a long numeral, and what an addition keeps of
    its exact result. *)
Definition toDouble (n : N) : N :=
  if N.leb n 9007199254740992 then n
  else
    let e := (N.log2 n - 52)%N in
    let q := N.shiftr n e in
    let r := (n - N.shiftl q e)%N in
    let half := N.shiftl 1 (e - 1) in
    let q' :=
      if N.ltb r half then q
      else if N.ltb half r then (q + 1)%N
      else if N.even q then q else (q + 1)%N in
    N.shiftl q' e.

(** [+_.maxBy(...) + 1], a number: exact up to [2^53], rounded beyond (and
    printed in digits as long as it is below [1e21]). *)
Definition freshUserId (ratingsData : RatingsTable) : JsId :=
  match maxKey ratingsData with
  | Some n => IdNum (toDouble (toDouble n + 1))
  | None => IdNaN
  end.

(** [{ movieId, title, genres }], an element of [unratedMovies]. *)
Record MovieEntry : Type := mkMovie {
  mMovieId : Z;
  mTitle : string;
  mGenres : string
}.

Definition unratedMovies (userRatings : UserRatingVector) (movies : Catalog)
  : list MovieEntry :=
  map (fun entry => mkMovie (fst entry) (title (snd entry)) (genres (snd entry)))
      (filter (fun entry =>
                 negb (existsb (fun r => Z.eqb (movieId r) (fst entry)) userRatings))
              movies).

Definition predictedMovies (neighbors : list NeighborRecord)
    (unrated : list MovieEntry) : list PredictedRating :=
  map (fun movie =>
         mkPredicted (mMovieId movie) (mTitle movie) (mGenres movie)
                     (predictRating (mMovieId movie) neighbors))
      unrated.

Definition topRecommendations (predicted : list PredictedRating)
  : list PredictedRating :=
  Js.slice0 10 (Js.sortDescBy (fun p => toNumber (predictedRating p)) predicted).

(** The steps shared by [main] and by the [/postUserRatings] handler, from
    the id generation to [topRecommendations]; the first component is
    [ratingsData] after the assignment [ratingsData[newUserId] = userRatings]. *)
Definition recommend (k : nat) (userRatings : UserRatingVector)
    (ratingsData : RatingsTable) (movies : Catalog)
  : RatingsTable * list PredictedRating :=
  let newUserId := freshUserId ratingsData in
  let ratingsData' := Js.set ratingsData (Js.toPropertyKey newUserId) userRatings in
  let neighbors := findNearestNeighbors newUserId ratingsData' k in
  let unrated := unratedMovies userRatings movies in
  (ratingsData', topRecommendations (predictedMovies neighbors unrated)).

(** [const k = 10]. *)
Definition k_neighbors : nat := 10.

(** [main] of the command-line program from the id generation on, the
    answers typed at the prompt being read as numbers: the table it leaves
    and the recommendations it prints. *)
Definition main (userRatings : UserRatingVector) (ratingsData : RatingsTable)
    (movies : Catalog) : RatingsTable * list PredictedRating :=
  recommend k_neighbors userRatings ratingsData movies.

(** The server keeps [movies] and [ratingsData] in two module-level
    variables. *)
Record ServerState : Type := mkState {
  stMovies : Catalog;
  stRatingsData : RatingsTable
}.

Inductive Response : Type :=
| Status400 (error : string)
| Json (body : list PredictedRating).

(** [app.post('/postUserRatings', ...)] with [req.body] an array. *)
Definition postUserRatings (userRatings : UserRatingVector) (st : ServerState)
  : ServerState * Response :=
  match List.length userRatings with
  | O => (st, Status400 "No ratings provided")
  | S _ =>
      let (ratingsData', top) :=
        recommend k_neighbors userRatings (stRatingsData st) (stMovies st) in
      (mkState (stMovies st) ratingsData', Json top)
  end.

(** ** The similarity on binary64 numbers

    [calculateSimilarity] once more, on the machine numbers of the program:
    every operation is the IEEE 754 one, [Math.pow(x, 2)] is [x * x], and
    [===] is the equality of numbers ([NaN] differs from itself). *)

Module Binary64.

Import PrimFloat.

Record ItemRating64 : Type := mkItemRating64 {
  movieId64 : Z;
  rating64 : float
}.

Definition ofNat (n : nat) : float := of_uint63 (Uint63.of_Z (Z.of_nat n)).

(** [_.meanBy]: [NaN] for an empty array, else the running sum, started at
    the first rating, over the length. *)
Definition meanBy (l : list ItemRating64) : float :=
  match l with
  | [] => nan
  | first :: rest =>
      (fold_left (fun acc r => acc + rating64 r) rest (rating64 first)
       / ofNat (List.length l))%float
  end.

Fixpoint baseIntersection (seen : list Z) (array : list ItemRating64)
    (other : list Z) : list ItemRating64 :=
  match array with
  | [] => []
  | value :: rest =>
      let computed := movieId64 value in
      if Lodash.includes computed seen then baseIntersection seen rest other
      else if Lodash.includes computed other
           then value :: baseIntersection (computed :: seen) rest other
           else baseIntersection seen rest other
  end.

Definition intersectionBy (a b : list ItemRating64) : list ItemRating64 :=
  baseIntersection [] a (map movieId64 b).

(** One round of [commonMovies.forEach]; the triple is
    [(numerator, sum1, sum2)]. *)
Definition pearsonStep (avg1 avg2 : float) (acc : float * float * float)
    (movie : ItemRating64) : float * float * float :=
  let '(numerator, sum1, sum2) := acc in
  ((numerator + (rating64 movie - avg1) * (rating64 movie - avg2))%float,
   (sum1 + (rating64 movie - avg1) * (rating64 movie - avg1))%float,
   (sum2 + (rating64 movie - avg2) * (rating64 movie - avg2))%float).

Definition calculateSimilarity (user1Ratings user2Ratings : list ItemRating64)
  : float :=
  let avg1 := meanBy user1Ratings in
  let avg2 := meanBy user2Ratings in
  let commonMovies := intersectionBy user1Ratings user2Ratings in
  let '(numerator, sum1, sum2) :=
    fold_left (pearsonStep avg1 avg2) commonMovies (0%float, 0%float, 0%float) in
  if eqb (sum1 * sum2)%float 0%float then 0%float
  else (numerator / sqrt (sum1 * sum2))%float.

Definition one : float := 1%float.

(** The number after [1], printed [1.0000000000000002]. *)
Definition afterOne : float := 0x1.0000000000001p+0%float.

(** Two users with one movie in common. *)
Definition lowRater : list ItemRating64 :=
  [mkItemRating64 1 1%float; mkItemRating64 2 1%float; mkItemRating64 3 2%float].
Definition highRater : list ItemRating64 :=
  [mkItemRating64 1 4%float; mkItemRating64 12 5%float].

End Binary64.

(** ** The similarity of the specification

    Pearson correlation over the common movies as the documentation words it:
    for each movie rated by both users, the first factor uses the first
    user's rating and the second factor the second user's rating. *)

Definition ratingOf (mid : Z) (ratings : UserRatingVector) : R :=
  match findRating mid ratings with
  | Some r => rating r
  | None => 0
  end.

Definition pearsonSpecStep (avgA avgB : R) (vectorB : UserRatingVector)
    (acc : PearsonAcc) (itemA : ItemRating) : PearsonAcc :=
  let ratingA := rating itemA in
  let ratingB := ratingOf (movieId itemA) vectorB in
  {| numerator := numerator acc + (ratingA - avgA) * (ratingB - avgB);
     sum1 := sum1 acc + (ratingA - avgA) ^ 2;
     sum2 := sum2 acc + (ratingB - avgB) ^ 2 |}.

Definition pearsonSpec (vectorA vectorB : UserRatingVector) : R :=
  let avgA := Lodash.meanBy vectorA in
  let avgB := Lodash.meanBy vectorB in
  let commonItems := Lodash.intersectionBy vectorA vectorB in
  let acc := fold_left (pearsonSpecStep avgA avgB vectorB) commonItems (mkAcc 0 0 0) in
  if Req_dec_T (sum1 acc * sum2 acc) 0 then 0
  else numerator acc / sqrt (sum1 acc * sum2 acc).

(** ** Vocabulary of the properties *)

Fixpoint Rsum (l : list R) : R :=
  match l with
  | [] => 0
  | x :: l' => x + Rsum l'
  end.

(** The accumulators at the end of the loop of [calculateSimilarity]. *)
Definition finalAcc (user1Ratings user2Ratings : UserRatingVector) : PearsonAcc :=
  fold_left
    (pearsonStep (Lodash.meanBy user1Ratings) (Lodash.meanBy user2Ratings))
    (Lodash.intersectionBy user1Ratings user2Ratings) (mkAcc 0 0 0).

(** Two vectors rate the same set of items. *)
Definition sameItems (b b' : UserRatingVector) : Prop :=
  forall mid : Z, In mid (map movieId b) <-> In mid (map movieId b').

(** Non-increasing order of a list under a numeric key. *)
Definition nonIncreasingBy {A : Type} (key : A -> R) (l : list A) : Prop :=
  StronglySorted (fun a b => key b <= key a) l.

(** The records [findNearestNeighbors] builds before sorting, as a filter
    followed by a map. *)
Definition candidates (userId : JsId) (ratingsData : RatingsTable)
  : list NeighborRecord :=
  map (fun entry =>
         mkNeighbor (fst entry)
           (calculateSimilarity (targetRatings userId ratingsData) (snd entry))
           (snd entry))
      (filter (fun entry => Js.strictNeq (fst entry) userId) ratingsData).

(** The neighbours who rated [mid], each as [(rating, similarity)]. *)
Definition contributions (mid : Z) (neighbors : list NeighborRecord) : list (R * R) :=
  flat_map
    (fun neighbor =>
       match findRating mid (nRatings neighbor) with
       | Some r => [(rating r, similarity neighbor)]
       | None => []
       end)
    neighbors.

Definition weightedSumOf (c : list (R * R)) : R :=
  Rsum (map (fun p => fst p * snd p) c).

Definition similaritySumOf (c : list (R * R)) : R :=
  Rsum (map snd c).





(** A real number to one decimal place, the way [toFixed(1)] rounds it. *)
Definition roundTenth (x : R) : R := IZR (Js.toFixed1 x) / 10.

(** The recommendations carried by a response, none for an error. *)
Definition responseBody (r : Response) : list PredictedRating :=
  match r with
  | Json body => body
  | Status400 _ => []
  end.

(** What the three promises about a recommendation list say. *)
Definition recommendationsOk (userRatings : UserRatingVector)
    (recs : list PredictedRating) : Prop :=
  (forall p, In p recs -> ~ In (pMovieId p) (map movieId userRatings)) /\
  (List.length recs <= 10)%nat /\
  nonIncreasingBy (fun p => toNumber (predictedRating p)) recs.

(** ** Sample data *)

Module Sample.

Definition r (mid : Z) (x : R) : ItemRating := mkItemRating mid x.

(** The corpus of the end-to-end scenario. *)
Definition user1 : UserRatingVector := [r 10 5; r 20 3].
Definition user2 : UserRatingVector := [r 10 5; r 20 3; r 30 4].
Definition user3 : UserRatingVector := [r 10 1; r 20 1].
Definition corpus : RatingsTable :=
  [(KIdx 1, user1); (KIdx 2, user2); (KIdx 3, user3)].
Definition newUser : UserRatingVector := [r 10 5; r 20 3].

(** The table after [ratingsData[newUserId] = userRatings]. *)
Definition corpus' : RatingsTable := fst (recommend 2 newUser corpus []).

(** Two users with opposite tastes. *)
Definition low_high : UserRatingVector := [r 10 1; r 20 3].
Definition high_low : UserRatingVector := [r 10 3; r 20 1].

(** Same items and same mean, different ratings. *)
Definition spread : UserRatingVector := [r 10 1; r 20 5].
Definition spread' : UserRatingVector := [r 10 5; r 20 1].

(** A corpus of one user who shares no movie with the newcomer. *)
Definition stranger : UserRatingVector := [r 30 4].
Definition smallTable : RatingsTable := [(KIdx 1, stranger); (KIdx 2, newUser)].

(** Two users with one movie in common. *)
Definition lowRater : UserRatingVector := [r 1 1; r 2 1; r 3 2].
Definition highRater : UserRatingVector := [r 1 4; r 12 5].


(** A neighbourhood of one user who gave a quarter-star rating. *)
Definition quarter : list NeighborRecord :=
  [mkNeighbor (KIdx 1) 1 [r 30 (19 / 4)]].

Definition catalog : Catalog :=
  [(10%Z, mkItemMeta "Ten" "Drama"); (20%Z, mkItemMeta "Twenty" "Comedy");
   (30%Z, mkItemMeta "Thirty" "Action")].

End Sample.

(** The neighbourhood the orchestrator computes in the end-to-end scenario
    with [k = 2]. *)
Definition scenarioNeighbors : list NeighborRecord :=
  findNearestNeighbors (freshUserId Sample.corpus) Sample.corpus' 2.


(** A server that loaded the corpus and the catalog of the scenario. *)
Definition sampleState : ServerState := mkState Sample.catalog Sample.corpus.

(** ** Ingestion, movie selection and rating collection *)

(** [{ userId, movieId, rating }], a row [loadRatings] kept; user ids are
    the natural numbers of the data model. *)
Record RatingRow : Type := mkRow {
  rowUserId : N;
  rowMovieId : Z;
  rowRating : R
}.

(** One round of [ratings.reduce] in [formatRatingsData].  [acc[id]] is an
    array or [undefined], so [!acc[id]] tests the absence of the key;
    [push] changes the array in place, which leaves the key where it is.
    The last branch is never taken: the key exists after the first step. *)
Definition formatStep (acc : RatingsTable) (rating : RatingRow) : RatingsTable :=
  let key := KIdx (rowUserId rating) in
  let acc1 :=
    match Js.get acc key with
    | None => Js.set acc key []
    | Some _ => acc
    end in
  match Js.get acc1 key with
  | Some ratings =>
      Js.set acc1 key
        (ratings ++ [mkItemRating (rowMovieId rating) (rowRating rating)])
  | None => acc1
  end.

Definition formatRatingsData (ratings : list RatingRow) : RatingsTable :=
  fold_left formatStep ratings [].

(** [selectRandomMovies(movies, numMovies)]; [_.shuffle] draws a random
    permutation, here the function [shuffle]. *)
Definition selectRandomMovies (shuffle : Catalog -> Catalog) (movies : Catalog)
    (numMovies : nat) : Catalog :=
  Js.slice0 numMovies (shuffle movies).

(** A line typed at the prompt, as the number the comparisons of
    [getMovieRatings] read it as; [None] when it reads as [NaN]. *)
Definition Answer : Type := option R.

(** [rating < 1 || rating > 5 || isNaN(rating)]. *)
Definition outOfScale (answer : Answer) : bool :=
  match answer with
  | Some x => Js.Rltb x 1 || Js.Rltb 5 x
  | None => true
  end.

(** The [do ... while] loop of the command-line [getMovieRatings]: answers
    are read until one is on the scale; the result is that answer and the
    answers not yet read, [None] when the input ends first. *)
Fixpoint promptUntilValid (answers : list Answer) : option (R * list Answer) :=
  match answers with
  | [] => None
  | answer :: rest =>
      if outOfScale answer then promptUntilValid rest
      else match answer with
           | Some x => Some (x, rest)
           | None => promptUntilValid rest
           end
  end.

(** [getMovieRatings(moviesToDisplay)] of the command-line program, reading
    from the list of answers. *)
Fixpoint getMovieRatings (moviesToDisplay : Catalog) (answers : list Answer)
  : option (UserRatingVector * list Answer) :=
  match moviesToDisplay with
  | [] => Some ([], answers)
  | movie :: others =>
      match promptUntilValid answers with
      | None => None
      | Some (x, answers') =>
          match getMovieRatings others answers' with
          | None => None
          | Some (userRatings, unread) =>
              Some (mkItemRating (fst movie) x :: userRatings, unread)
          end
      end
  end.

(** The server answering a sequence of [/postUserRatings] requests one
    after the other: the state it ends in. *)
Definition serve (requests : list UserRatingVector) (st : ServerState) : ServerState :=
  fold_left (fun s body => fst (postUserRatings body s)) requests st.

(** ** More vocabulary *)

Definition keysOf (ratingsData : RatingsTable) : list PropKey := map fst ratingsData.

(** The rows of one user as the entries of that user's vector. *)
Definition rowsOf (user : N) (ratings : list RatingRow) : UserRatingVector :=
  map (fun row => mkItemRating (rowMovieId row) (rowRating row))
      (filter (fun row => N.eqb (rowUserId row) user) ratings).

Definition Req_bool (x y : R) : bool := if Req_dec_T x y then true else false.

(** The requests the handler accepts. *)
Definition accepted (requests : list UserRatingVector) : list UserRatingVector :=
  filter (fun body => negb (Nat.eqb (List.length body) 0)) requests.

(** The answers that are on the scale. *)
Definition onScale (answers : list Answer) : list Answer :=
  filter (fun a => negb (outOfScale a)) answers.

(** A key that is an array index. *)
Definition indexKey (key : PropKey) : bool :=
  match key with
  | KIdx n => Js.isIndex n
  | KNaN => false
  end.

(** Keys in an order in which an object can enumerate them: each key is
    placed before the keys that follow it. *)
Definition enumerated (keys : list PropKey) : Prop :=
  StronglySorted (fun a b => Js.keyBefore a b = true) keys.

(** Keys that are the numerals of strictly ascending numbers. *)
Definition ascending (keys : list PropKey) : Prop :=
  exists ids : list N, keys = map KIdx ids /\ StronglySorted N.lt ids.

(** [const numMoviesToDisplay = 20]. *)
Definition numMoviesToDisplay : nat := 20.

(** The whole of the command-line [main]: the movies are drawn, the ratings
    are read from the answers, and the orchestrator runs; [None] when the
    input ends before every movie shown has a rating.  (The program keeps
    each answer as the string typed, which the mean of the newcomer's
    ratings then concatenates; the similarities of the newcomer are those of
    the program only where the answers are stored as numbers, as the HTTP
    handler receives them.) *)
Definition runMain (shuffle : Catalog -> Catalog) (answers : list Answer)
    (ratingsData : RatingsTable) (movies : Catalog)
  : option (RatingsTable * list PredictedRating) :=
  let moviesToDisplay := selectRandomMovies shuffle movies numMoviesToDisplay in
  match getMovieRatings moviesToDisplay answers with
  | Some (userRatings, _) => Some (main userRatings ratingsData movies)
  | None => None
  end.

(** Three rows of two users, and the answers of somebody who mistypes. *)
Definition sampleRows : list RatingRow :=
  [mkRow 2 10 5; mkRow 1 10 3; mkRow 2 20 4].

Definition sampleAnswers : list Answer :=
  [Some 5; Some 0; None; Some 7; Some 3; Some 4].

(** ** Sums and the accumulators of [calculateSimilarity] *)

Section Accumulators.

Lemma Rsum_sq_nonneg (f : ItemRating -> R) (l : UserRatingVector) :
  0 <= Rsum (map (fun m => f m ^ 2) l).
Proof.
  induction l as [|m l IH]; cbn [map Rsum].
  - lra.
  - pose proof (pow2_ge_0 (f m)) as Hm. lra.
Qed.

(** Cauchy-Schwarz on two families indexed by one list. *)
Lemma cauchy_schwarz (f g : ItemRating -> R) (l : UserRatingVector) :
  Rsum (map (fun m => f m * g m) l) ^ 2
  <= Rsum (map (fun m => f m ^ 2) l) * Rsum (map (fun m => g m ^ 2) l).
Proof.
  induction l as [|m l IH]; cbn [map Rsum].
  - lra.
  - pose proof (Rsum_sq_nonneg f l) as Hb.
    pose proof (Rsum_sq_nonneg g l) as Hc.
    set (a := Rsum (map (fun m => f m * g m) l)) in *.
    set (b := Rsum (map (fun m => f m ^ 2) l)) in *.
    set (c := Rsum (map (fun m => g m ^ 2) l)) in *.
    set (x := f m). set (y := g m).
    clearbody a b c x y.
    assert (Hmix : 2 * (a * (x * y)) <= b * (y * y) + c * (x * x)).
    { destruct (Rle_dec (2 * (a * (x * y))) (b * (y * y) + c * (x * x)))
        as [Hle|Hgt]; [exact Hle|exfalso].
      apply Rnot_le_lt in Hgt.
      assert (H0 : 0 <= b * (y * y) + c * (x * x)) by nra.
      assert (H1 : (b * (y * y) + c * (x * x)) * (b * (y * y) + c * (x * x))
                   < (2 * (a * (x * y))) * (2 * (a * (x * y)))) by nra.
      assert (H2 : (a ^ 2) * ((x * x) * (y * y))
                   <= (b * c) * ((x * x) * (y * y))).
      { apply Rmult_le_compat_r; [nra|exact IH]. }
      assert (H3 : 0 <= (b * (y * y) - c * (x * x)) * (b * (y * y) - c * (x * x)))
        by apply Rle_0_sqr.
      lra. }
    nra.
Qed.

Variables avg1 avg2 : R.

Lemma fold_pearsonStep (l : UserRatingVector) (acc : PearsonAcc) :
  fold_left (pearsonStep avg1 avg2) l acc =
  {| numerator :=
       numerator acc + Rsum (map (fun m => (rating m - avg1) * (rating m - avg2)) l);
     sum1 := sum1 acc + Rsum (map (fun m => (rating m - avg1) ^ 2) l);
     sum2 := sum2 acc + Rsum (map (fun m => (rating m - avg2) ^ 2) l) |}.
Proof.
  revert acc. induction l as [|m l IH]; intros [n s1 s2].
  - simpl. f_equal; lra.
  - cbn [fold_left]. rewrite IH. unfold pearsonStep. cbn [numerator sum1 sum2 map Rsum].
    f_equal; lra.
Qed.

End Accumulators.

Lemma calculateSimilarity_unfold (u1 u2 : UserRatingVector) :
  calculateSimilarity u1 u2 =
  if Req_dec_T (sum1 (finalAcc u1 u2) * sum2 (finalAcc u1 u2)) 0 then 0
  else numerator (finalAcc u1 u2) / sqrt (sum1 (finalAcc u1 u2) * sum2 (finalAcc u1 u2)).
Proof. reflexivity. Qed.

Lemma calculateSimilarity_zero (u1 u2 : UserRatingVector) :
  sum1 (finalAcc u1 u2) * sum2 (finalAcc u1 u2) = 0 ->
  calculateSimilarity u1 u2 = 0.
Proof.
  intro H. rewrite calculateSimilarity_unfold.
  destruct (Req_dec_T _ 0) as [_|ne]; [reflexivity|contradiction].
Qed.

Lemma calculateSimilarity_value (u1 u2 : UserRatingVector) (n d : R) :
  numerator (finalAcc u1 u2) = n ->
  sum1 (finalAcc u1 u2) * sum2 (finalAcc u1 u2) = d * d ->
  0 < d ->
  calculateSimilarity u1 u2 = n / d.
Proof.
  intros Hn Hd Hpos. rewrite calculateSimilarity_unfold.
  destruct (Req_dec_T _ 0) as [e|_].
  - rewrite Hd in e. nra.
  - rewrite Hn, Hd, sqrt_square by lra. reflexivity.
Qed.

Lemma finalAcc_nonneg (u1 u2 : UserRatingVector) :
  0 <= sum1 (finalAcc u1 u2) /\ 0 <= sum2 (finalAcc u1 u2) /\
  numerator (finalAcc u1 u2) ^ 2 <= sum1 (finalAcc u1 u2) * sum2 (finalAcc u1 u2).
Proof.
  unfold finalAcc. rewrite fold_pearsonStep. cbn [numerator sum1 sum2].
  set (a1 := Lodash.meanBy u1). set (a2 := Lodash.meanBy u2).
  set (l := Lodash.intersectionBy u1 u2).
  pose proof (Rsum_sq_nonneg (fun m => rating m - a1) l) as H1.
  pose proof (Rsum_sq_nonneg (fun m => rating m - a2) l) as H2.
  pose proof (cauchy_schwarz (fun m => rating m - a1) (fun m => rating m - a2) l) as H3.
  cbv beta in *.
  rewrite !Rplus_0_l. auto.
Qed.

(** In exact arithmetic the similarity lies in [[-1, 1]]. *)
Lemma calculateSimilarity_range (u1 u2 : UserRatingVector) :
  -1 <= calculateSimilarity u1 u2 <= 1.
Proof.
  rewrite calculateSimilarity_unfold.
  destruct (finalAcc_nonneg u1 u2) as (H1 & H2 & H3).
  set (n := numerator (finalAcc u1 u2)) in *.
  set (p := sum1 (finalAcc u1 u2) * sum2 (finalAcc u1 u2)) in *.
  destruct (Req_dec_T p 0) as [_|ne]; [lra|].
  assert (Hp : 0 < p) by (subst p; nra).
  pose proof (sqrt_lt_R0 p Hp) as Hs.
  pose proof (sqrt_sqrt p (Rlt_le _ _ Hp)) as Hss.
  set (s := sqrt p) in *.
  assert (Habs : - s <= n <= s) by (split; nra).
  split.
  - apply Rmult_le_reg_r with s; [exact Hs|].
    unfold Rdiv. rewrite Rmult_assoc, Rinv_l by lra. lra.
  - apply Rmult_le_reg_r with s; [exact Hs|].
    unfold Rdiv. rewrite Rmult_assoc, Rinv_l by lra. lra.
Qed.

(** The averages are not consumed when one of the arrays is empty: the
    result is [0] whatever stands for the mean of the empty array. *)
Lemma similarityFrom_nil_l (avg1 avg2 : R) (u2 : UserRatingVector) :
  similarityFrom avg1 avg2 [] u2 = 0.
Proof.
  unfold similarityFrom. cbn.
  destruct (Req_dec_T (0 * 0) 0) as [_|ne]; [reflexivity|exfalso; lra].
Qed.

Lemma baseIntersection_nil_r (seen : list Z) (a : UserRatingVector) :
  Lodash.baseIntersection seen a [] = [].
Proof.
  revert seen. induction a as [|v a IH]; intro seen; cbn; [reflexivity|].
  destruct (Lodash.includes (movieId v) seen); apply IH.
Qed.

Lemma similarityFrom_nil_r (avg1 avg2 : R) (u1 : UserRatingVector) :
  similarityFrom avg1 avg2 u1 [] = 0.
Proof.
  unfold similarityFrom, Lodash.intersectionBy. cbn [map].
  rewrite baseIntersection_nil_r. cbn.
  destruct (Req_dec_T (0 * 0) 0) as [_|ne]; [reflexivity|exfalso; lra].
Qed.

(** The common movies depend on the second array through its set of ids
    only. *)
Lemma baseIntersection_ext (seen : list Z) (a : UserRatingVector) (o o' : list Z) :
  (forall x, In x o <-> In x o') ->
  Lodash.baseIntersection seen a o = Lodash.baseIntersection seen a o'.
Proof.
  intro Hset.
  assert (Hinc : forall x, Lodash.includes x o = Lodash.includes x o').
  { intro x. unfold Lodash.includes.
    apply eq_true_iff_eq. rewrite !existsb_exists.
    split; intros (y & Hy & Hxy); exists y; split; auto; apply Hset; exact Hy. }
  revert seen. induction a as [|v a IH]; intro seen; cbn; [reflexivity|].
  rewrite Hinc, !IH. reflexivity.
Qed.

Lemma intersectionBy_sameItems (a b b' : UserRatingVector) :
  sameItems b b' -> Lodash.intersectionBy a b = Lodash.intersectionBy a b'.
Proof. intro H. apply baseIntersection_ext. exact H. Qed.

(** ** The similarity engine *)

Ltac eval_acc :=
  cbv [finalAcc Lodash.meanBy Lodash.sumBy Lodash.intersectionBy
       Lodash.baseIntersection Lodash.includes existsb map fold_left
       pearsonStep pearsonSpecStep ratingOf findRating find
       numerator sum1 sum2 movieId rating List.length INR
       Z.eqb Pos.eqb orb
       Sample.r Sample.user1 Sample.user2 Sample.user3 Sample.newUser
       Sample.low_high Sample.high_low Sample.spread Sample.spread'
       Sample.stranger].

(** C1.  On two users with opposite tastes the code and the documented
    Pearson correlation part ways: the loop of [calculateSimilarity] reads
    both deviations from the first user's rating and answers [1], where the
    correlation that pairs the first user's rating with the second user's
    rating is [-1]. *)
Theorem calculateSimilarity_uses_first_rating_twice :
  calculateSimilarity Sample.low_high Sample.high_low = 1 /\
  pearsonSpec Sample.low_high Sample.high_low = -1.
Proof.
  split.
  - rewrite (calculateSimilarity_value _ _ 2 2); [lra| | |lra]; eval_acc; lra.
  - unfold pearsonSpec.
    set (acc := fold_left _ _ _).
    assert (Hn : numerator acc = -2) by (subst acc; eval_acc; lra).
    assert (Hd : sum1 acc * sum2 acc = 2 * 2) by (subst acc; eval_acc; lra).
    destruct (Req_dec_T _ 0) as [e|_]; [lra|].
    rewrite Hn, Hd, sqrt_square by lra. lra.
Qed.

(** C3.  Swapping the two arguments changes the result: the newcomer of the
    scenario against the user who gave [1] everywhere scores [2 / sqrt 40],
    the other way round [0]. *)
Theorem calculateSimilarity_not_symmetric :
  calculateSimilarity Sample.newUser Sample.user3 = 2 / sqrt 40 /\
  calculateSimilarity Sample.user3 Sample.newUser = 0 /\
  calculateSimilarity Sample.newUser Sample.user3 <>
  calculateSimilarity Sample.user3 Sample.newUser.
Proof.
  assert (H40 : 0 < sqrt 40) by (apply sqrt_lt_R0; lra).
  assert (Hab : calculateSimilarity Sample.newUser Sample.user3 = 2 / sqrt 40).
  { apply calculateSimilarity_value; [| |exact H40].
    - eval_acc; lra.
    - rewrite sqrt_sqrt by lra. eval_acc; lra. }
  assert (Hba : calculateSimilarity Sample.user3 Sample.newUser = 0).
  { apply calculateSimilarity_zero. eval_acc; lra. }
  repeat split; auto.
  rewrite Hab, Hba. intro H.
  apply Rmult_eq_compat_r with (r := sqrt 40) in H.
  unfold Rdiv in H. rewrite Rmult_assoc, Rinv_l in H by lra. lra.
Qed.

(** C4.  On two users with a single movie in common the program returns
    [1.0000000000000002], the number after [1], where the exact value is
    [1]: the quotient of [numerator] by the square root is rounded, and
    nothing brings it back into [[-1, 1]]. *)
Theorem calculateSimilarity_exceeds_one :
  Binary64.calculateSimilarity Binary64.lowRater Binary64.highRater
  = Binary64.afterOne /\
  PrimFloat.ltb Binary64.one Binary64.afterOne = true /\
  calculateSimilarity Sample.lowRater Sample.highRater = 1.
Proof.
  split; [vm_compute; reflexivity|split; [reflexivity|]].
  rewrite (calculateSimilarity_value _ _ (7 / 6) (7 / 6)); [field| | |lra];
    unfold Sample.lowRater, Sample.highRater; eval_acc; lra.
Qed.

(** C10.  The similarity reads the second vector through its set of item
    ids and its mean only: two second vectors that agree on both give the
    same similarity with any first vector. *)
Theorem calculateSimilarity_ignores_second_ratings (a b b' : UserRatingVector) :
  sameItems b b' ->
  Lodash.meanBy b = Lodash.meanBy b' ->
  calculateSimilarity a b = calculateSimilarity a b'.
Proof.
  intros Hitems Hmean. unfold calculateSimilarity, similarityFrom.
  rewrite Hmean, (intersectionBy_sameItems a b b' Hitems). reflexivity.
Qed.

Lemma calculateSimilarity_ignores_second_ratings_witness :
  sameItems Sample.spread Sample.spread' /\
  Lodash.meanBy Sample.spread = Lodash.meanBy Sample.spread' /\
  Sample.spread <> Sample.spread' /\
  calculateSimilarity Sample.newUser Sample.spread =
  calculateSimilarity Sample.newUser Sample.spread'.
Proof.
  assert (Hitems : sameItems Sample.spread Sample.spread')
    by (intro mid; reflexivity).
  assert (Hmean : Lodash.meanBy Sample.spread = Lodash.meanBy Sample.spread')
    by (eval_acc; lra).
  split; [exact Hitems|split; [exact Hmean|split]].
  - intro H. injection H as H _. lra.
  - apply (calculateSimilarity_ignores_second_ratings _ _ _ Hitems Hmean).
Defined.

(** ** Sorting and slicing *)

Section SortDesc.

Context {A : Type} (key : A -> R).

Lemma Rltb_true (x y : R) : x < y -> Js.Rltb x y = true.
Proof. intro H. unfold Js.Rltb. destruct (Rlt_dec x y); [reflexivity|contradiction]. Qed.

Lemma Rltb_false (x y : R) : y <= x -> Js.Rltb x y = false.
Proof. intro H. unfold Js.Rltb. destruct (Rlt_dec x y); [lra|reflexivity]. Qed.

Lemma insertDesc_perm (x : A) (l : list A) :
  Permutation (x :: l) (Js.insertDesc key x l).
Proof.
  induction l as [|y l IH]; cbn; [apply Permutation_refl|].
  destruct (Js.Rltb (key x) (key y)).
  - apply perm_trans with (y :: x :: l); [apply perm_swap|].
    apply perm_skip. exact IH.
  - apply Permutation_refl.
Qed.

Lemma sortDescBy_perm (l : list A) : Permutation l (Js.sortDescBy key l).
Proof.
  induction l as [|x l IH]; cbn; [apply perm_nil|].
  apply perm_trans with (x :: Js.sortDescBy key l).
  - apply perm_skip. exact IH.
  - apply insertDesc_perm.
Qed.

Lemma insertDesc_sorted (x : A) (l : list A) :
  nonIncreasingBy key l -> nonIncreasingBy key (Js.insertDesc key x l).
Proof.
  unfold nonIncreasingBy.
  induction l as [|y l IH]; intro Hs; cbn.
  - constructor; constructor.
  - apply StronglySorted_inv in Hs as [Hl Hy].
    unfold Js.Rltb. destruct (Rlt_dec (key x) (key y)) as [Hlt|Hge].
    + constructor; [apply IH; exact Hl|].
      apply Forall_forall. intros z Hz.
      apply (Permutation_in z (Permutation_sym (insertDesc_perm x l))) in Hz.
      destruct Hz as [<-|Hz]; [lra|].
      rewrite Forall_forall in Hy. apply Hy. exact Hz.
    + apply Rnot_lt_le in Hge.
      constructor; [constructor; assumption|].
      constructor; [exact Hge|].
      apply Forall_forall. intros z Hz.
      rewrite Forall_forall in Hy. specialize (Hy z Hz). lra.
Qed.

Lemma sortDescBy_sorted (l : list A) : nonIncreasingBy key (Js.sortDescBy key l).
Proof.
  induction l as [|x l IH]; cbn.
  - constructor.
  - apply insertDesc_sorted. exact IH.
Qed.

Lemma slice0_In (k : nat) (l : list A) (x : A) : In x (Js.slice0 k l) -> In x l.
Proof.
  unfold Js.slice0. intro H.
  rewrite <- (firstn_skipn k l). apply in_or_app. left. exact H.
Qed.

Lemma slice0_sorted (k : nat) (l : list A) :
  nonIncreasingBy key l -> nonIncreasingBy key (Js.slice0 k l).
Proof.
  unfold nonIncreasingBy, Js.slice0.
  revert l. induction k as [|k IH]; intros l Hs; cbn; [constructor|].
  destruct l as [|x l]; [constructor|].
  apply StronglySorted_inv in Hs as [Hl Hx].
  constructor; [apply IH; exact Hl|].
  apply Forall_forall. intros z Hz.
  rewrite Forall_forall in Hx. apply Hx.
  apply (slice0_In k l z Hz).
Qed.

Lemma slice0_length (k : nat) (l : list A) : (List.length (Js.slice0 k l) <= k)%nat.
Proof. unfold Js.slice0. apply firstn_le_length. Qed.

Lemma slice0_all (k : nat) (l : list A) :
  (List.length l <= k)%nat -> Js.slice0 k l = l.
Proof. unfold Js.slice0. apply firstn_all2. Qed.

End SortDesc.

(** ** The neighbourhood selector *)

Lemma fold_neighborStep (userId : JsId) (ratingsData entries : RatingsTable)
    (acc : list NeighborRecord) :
  fold_left (neighborStep userId ratingsData) entries acc =
  acc ++ map (fun entry =>
                mkNeighbor (fst entry)
                  (calculateSimilarity (targetRatings userId ratingsData) (snd entry))
                  (snd entry))
             (filter (fun entry => Js.strictNeq (fst entry) userId) entries).
Proof.
  revert acc. induction entries as [|[user2Id ratings] entries IH]; intro acc.
  - cbn. rewrite app_nil_r. reflexivity.
  - cbn [fold_left filter fst snd neighborStep]. rewrite IH.
    destruct (Js.strictNeq user2Id userId); cbn [map fst snd].
    + rewrite <- app_assoc. reflexivity.
    + reflexivity.
Qed.

Lemma findNearestNeighbors_unfold (userId : JsId) (ratingsData : RatingsTable) (k : nat) :
  findNearestNeighbors userId ratingsData k =
  Js.slice0 k (Js.sortDescBy similarity (candidates userId ratingsData)).
Proof.
  unfold findNearestNeighbors. rewrite fold_neighborStep. reflexivity.
Qed.

(** What does hold of every call: at most [k] records, in non-increasing
    order of similarity. *)
Lemma findNearestNeighbors_length (userId : JsId) (ratingsData : RatingsTable) (k : nat) :
  (List.length (findNearestNeighbors userId ratingsData k) <= k)%nat.
Proof. rewrite findNearestNeighbors_unfold. apply slice0_length. Qed.

Lemma findNearestNeighbors_sorted (userId : JsId) (ratingsData : RatingsTable) (k : nat) :
  nonIncreasingBy similarity (findNearestNeighbors userId ratingsData k).
Proof.
  rewrite findNearestNeighbors_unfold. apply slice0_sorted, sortDescBy_sorted.
Qed.

Lemma propKey_eqb_eq (a b : PropKey) : Js.propKey_eqb a b = true <-> a = b.
Proof.
  destruct a as [n|], b as [m|]; cbn; try (split; [discriminate|discriminate]).
  - rewrite N.eqb_eq. split; [intros ->; reflexivity|intro H; injection H; auto].
  - split; reflexivity.
Qed.

(** X24.  A target named by a string is skipped. *)
Lemma findNearestNeighbors_skips_string_id (key : PropKey) (ratingsData : RatingsTable)
    (k : nat) (n : NeighborRecord) :
  In n (findNearestNeighbors (IdStr key) ratingsData k) -> nUserId n <> key.
Proof.
  rewrite findNearestNeighbors_unfold. intro Hin.
  apply slice0_In in Hin.
  apply (Permutation_in n (Permutation_sym (sortDescBy_perm similarity _))) in Hin.
  unfold candidates in Hin. apply in_map_iff in Hin as ([k2 v] & <- & Hf).
  apply filter_In in Hf as [_ Hneq]. cbn in *.
  intro Heq. apply propKey_eqb_eq in Heq. rewrite Heq in Hneq. discriminate.
Qed.

Lemma get_Some_In {A : Type} (obj : list (PropKey * A)) (key : PropKey) (v : A) :
  Js.get obj key = Some v -> exists k, k = key /\ In (k, v) obj.
Proof.
  induction obj as [|[k w] obj IH]; cbn; [discriminate|].
  destruct (Js.propKey_eqb k key) eqn:E.
  - intro H. injection H as ->. apply propKey_eqb_eq in E. exists k. auto.
  - intro H. destruct (IH H) as (k' & Hk & Hin). exists k'. auto.
Qed.

(** X25.  A target named by a number, the way both orchestrators name it,
    is never skipped: with room for everybody it is among its own
    neighbours. *)
Lemma findNearestNeighbors_keeps_numeric_id (n : N) (ratingsData : RatingsTable)
    (k : nat) (v : UserRatingVector) :
  Js.get ratingsData (KIdx n) = Some v ->
  (List.length ratingsData <= k)%nat ->
  In (KIdx n) (map nUserId (findNearestNeighbors (IdNum n) ratingsData k)).
Proof.
  intros Hget Hk. rewrite findNearestNeighbors_unfold.
  assert (Hall : filter (fun entry => Js.strictNeq (fst entry) (IdNum n)) ratingsData
                 = ratingsData).
  { clear. induction ratingsData as [|e l IH]; cbn [filter]; [reflexivity|].
    change (Js.strictNeq (fst e) (IdNum n)) with true. cbv iota.
    rewrite IH. reflexivity. }
  rewrite slice0_all.
  2:{ rewrite <- (Permutation_length (sortDescBy_perm similarity _)).
      unfold candidates. rewrite length_map, Hall. exact Hk. }
  apply in_map_iff.
  destruct (get_Some_In _ _ _ Hget) as (k' & -> & Hin).
  exists (mkNeighbor (KIdx n)
            (calculateSimilarity (targetRatings (IdNum n) ratingsData) v) v).
  split; [reflexivity|].
  apply (Permutation_in _ (sortDescBy_perm similarity _)).
  unfold candidates. rewrite Hall.
  apply in_map_iff. exists (KIdx n, v). split; [reflexivity|exact Hin].
Qed.

(** ** Rounding to one decimal place *)

Lemma toFixed1_nonneg (x : R) (n : Z) :
  0 <= x -> IZR n <= 10 * x + / 2 < IZR n + 1 -> Js.toFixed1 x = n.
Proof.
  intros Hx [Hlo Hhi]. unfold Js.toFixed1.
  destruct (Rlt_dec x 0) as [Hneg|_]; [lra|].
  symmetry. apply Int_part_spec. lra.
Qed.

Lemma toFixed1_neg (x : R) (n : Z) :
  x < 0 -> IZR n <= 10 * (- x) + / 2 < IZR n + 1 -> Js.toFixed1 x = (- n)%Z.
Proof.
  intros Hx [Hlo Hhi]. unfold Js.toFixed1.
  destruct (Rlt_dec x 0) as [_|Hpos]; [|lra].
  f_equal. symmetry. apply Int_part_spec. lra.
Qed.

(** ** Values of the scenario *)

Lemma sim_new_user1 : calculateSimilarity Sample.newUser Sample.user1 = 1.
Proof. rewrite (calculateSimilarity_value _ _ 2 2); [lra| | |lra]; eval_acc; lra. Qed.

Lemma sim_new_user2 : calculateSimilarity Sample.newUser Sample.user2 = 1.
Proof. rewrite (calculateSimilarity_value _ _ 2 2); [lra| | |lra]; eval_acc; lra. Qed.

Lemma sim_new_new : calculateSimilarity Sample.newUser Sample.newUser = 1.
Proof. rewrite (calculateSimilarity_value _ _ 2 2); [lra| | |lra]; eval_acc; lra. Qed.

Lemma sim_new_user3 : calculateSimilarity Sample.newUser Sample.user3 = 2 / sqrt 40.
Proof.
  apply calculateSimilarity_value.
  - eval_acc; lra.
  - rewrite sqrt_sqrt by lra. eval_acc; lra.
  - apply sqrt_lt_R0; lra.
Qed.

Lemma sim_new_stranger : calculateSimilarity Sample.newUser Sample.stranger = 0.
Proof. apply calculateSimilarity_zero. eval_acc; lra. Qed.

Lemma sim_user3_below_one : 2 / sqrt 40 < 1.
Proof.
  assert (H : 2 < sqrt 40).
  { rewrite <- (sqrt_square 2) at 1 by lra. apply sqrt_lt_1; lra. }
  apply Rmult_lt_reg_r with (sqrt 40); [lra|].
  unfold Rdiv. rewrite Rmult_assoc, Rinv_l by lra. lra.
Qed.

Lemma corpus'_eq : Sample.corpus' = Sample.corpus ++ [(KIdx 4, Sample.newUser)].
Proof. reflexivity. Qed.

Lemma freshUserId_corpus : freshUserId Sample.corpus = IdNum 4.
Proof. reflexivity. Qed.

Ltac eval_candidates :=
  cbv [candidates filter map fst snd app Js.strictNeq negb
       targetRatings Js.get Js.toPropertyKey Js.propKey_eqb N.eqb Pos.eqb
       Sample.corpus Sample.smallTable].

Ltac eval_sort :=
  cbv [Js.sortDescBy fold_right Js.insertDesc similarity];
  repeat match goal with
         | |- context [Js.Rltb ?a ?b] =>
             first [rewrite (Rltb_true a b) by lra
                   |rewrite (Rltb_false a b) by lra]
         end;
  cbv [Js.slice0 firstn].

(** The four candidates of the scenario once sorted: the target, user 4, is
    one of them, behind users 1 and 2 and ahead of user 3. *)
Lemma scenario_ranking :
  map nUserId
      (Js.sortDescBy similarity (candidates (IdNum 4) Sample.corpus')) =
  [KIdx 1; KIdx 2; KIdx 4; KIdx 3].
Proof.
  rewrite corpus'_eq. eval_candidates.
  rewrite sim_new_user1, sim_new_user2, sim_new_user3, sim_new_new.
  pose proof sim_user3_below_one as Hlt.
  set (x := 2 / sqrt 40) in *.
  eval_sort. reflexivity.
Qed.

Lemma scenarioNeighbors_eq :
  scenarioNeighbors =
  [mkNeighbor (KIdx 1) 1 Sample.user1; mkNeighbor (KIdx 2) 1 Sample.user2].
Proof.
  unfold scenarioNeighbors.
  rewrite freshUserId_corpus, findNearestNeighbors_unfold, corpus'_eq.
  eval_candidates.
  rewrite sim_new_user1, sim_new_user2, sim_new_user3, sim_new_new.
  pose proof sim_user3_below_one as Hlt.
  set (x := 2 / sqrt 40) in *.
  eval_sort. reflexivity.
Qed.

Ltac eval_predict :=
  cbv [predictRating fold_left predictStep findRating find nRatings similarity
       movieId rating fst snd Z.eqb Pos.eqb
       Sample.r Sample.user1 Sample.user2 Sample.user3 Sample.newUser
       Sample.stranger Sample.quarter].

Lemma scenario_prediction :
  predictRating 30
    [mkNeighbor (KIdx 1) 1 Sample.user1; mkNeighbor (KIdx 2) 1 Sample.user2]
  = PFixed 40.
Proof.
  eval_predict.
  destruct (Rlt_dec 0 (0 + 1)) as [_|H]; [|exfalso; lra].
  f_equal. apply toFixed1_nonneg; lra.
Qed.

(** C2.  [main] and the HTTP handler pass the fresh id as a number, and a
    key of [ratingsData] is a string, so [user2Id !== userId] holds for the
    target too: with the target user 2 in the table and [k = 1], the only
    neighbour returned is user 2 itself. *)
Theorem findNearestNeighbors_returns_target :
  Js.get Sample.smallTable (Js.toPropertyKey (IdNum 2)) = Some Sample.newUser /\
  map nUserId (findNearestNeighbors (IdNum 2) Sample.smallTable 1) = [KIdx 2].
Proof.
  split; [reflexivity|].
  rewrite findNearestNeighbors_unfold. eval_candidates.
  rewrite sim_new_stranger, sim_new_new.
  eval_sort. reflexivity.
Qed.

(** C8, as stated, fails: the first neighbour of the scenario is not
    user 2. *)
Lemma scenario_top_neighbor_is_not_user2 :
  ~ (exists n, hd_error scenarioNeighbors = Some n /\ nUserId n = KIdx 2).
Proof.
  rewrite scenarioNeighbors_eq. intros (n & Hhd & Hid).
  cbn in Hhd. injection Hhd as <-. cbn in Hid. discriminate.
Qed.

(** C8, amended.  In the scenario users 1 and 2 both reach similarity [1]
    with the newcomer; the stable sort keeps them in table order, so the
    two neighbours are user 1 then user 2, and the prediction for item 30,
    rated by user 2 alone, is ["4.0"]. *)
Theorem scenario_neighbors_and_prediction :
  map nUserId scenarioNeighbors = [KIdx 1; KIdx 2] /\
  map similarity scenarioNeighbors = [1; 1] /\
  predictRating 30 scenarioNeighbors = PFixed 40 /\
  toNumber (predictRating 30 scenarioNeighbors) = 4.
Proof.
  rewrite scenarioNeighbors_eq, scenario_prediction.
  repeat split. cbn. lra.
Qed.

(** ** The rating predictor *)


Lemma Int_part_mono (x y : R) : x <= y -> (Int_part x <= Int_part y)%Z.
Proof.
  intro Hxy.
  destruct (base_Int_part x) as [Hx _].
  destruct (base_Int_part y) as [_ Hy].
  assert (H : IZR (Int_part x) < IZR (Int_part y) + 1) by lra.
  rewrite <- plus_IZR in H. apply lt_IZR in H. lia.
Qed.

Lemma Int_part_nonneg (x : R) : 0 <= x -> (0 <= Int_part x)%Z.
Proof.
  intro Hx. destruct (base_Int_part x) as [_ Hhi].
  assert (H : IZR (-1) < IZR (Int_part x)) by lra.
  apply lt_IZR in H. lia.
Qed.

Lemma toFixed1_mono (x y : R) : x <= y -> (Js.toFixed1 x <= Js.toFixed1 y)%Z.
Proof.
  intro Hxy. unfold Js.toFixed1.
  destruct (Rlt_dec x 0) as [Hx|Hx], (Rlt_dec y 0) as [Hy|Hy].
  - apply Z.opp_le_mono. rewrite !Z.opp_involutive. apply Int_part_mono. lra.
  - assert (0 <= Int_part (10 * (- x) + / 2))%Z by (apply Int_part_nonneg; lra).
    assert (0 <= Int_part (10 * y + / 2))%Z by (apply Int_part_nonneg; lra).
    lia.
  - lra.
  - apply Int_part_mono. lra.
Qed.

Lemma fold_predictStep (mid : Z) (neighbors : list NeighborRecord) (acc : R * R) :
  fold_left (predictStep mid) neighbors acc =
  (fst acc + weightedSumOf (contributions mid neighbors),
   snd acc + similaritySumOf (contributions mid neighbors)).
Proof.
  revert acc. induction neighbors as [|n ns IH]; intros [ws ss].
  - cbn. f_equal; lra.
  - cbn [fold_left]. rewrite IH. unfold predictStep, contributions.
    cbn [flat_map]. fold (contributions mid ns).
    destruct (findRating mid (nRatings n)) as [r|]; cbn; f_equal; unfold weightedSumOf, similaritySumOf; lra.
Qed.

Lemma predictRating_unfold (mid : Z) (neighbors : list NeighborRecord) :
  predictRating mid neighbors =
  if Rlt_dec 0 (similaritySumOf (contributions mid neighbors))
  then PFixed (Js.toFixed1 (weightedSumOf (contributions mid neighbors) /
                            similaritySumOf (contributions mid neighbors)))
  else POne.
Proof.
  unfold predictRating. rewrite fold_predictStep. cbn [fst snd].
  rewrite !Rplus_0_l. reflexivity.
Qed.

Lemma contributions_nil (mid : Z) (neighbors : list NeighborRecord) :
  (forall n, In n neighbors -> findRating mid (nRatings n) = None) ->
  contributions mid neighbors = [].
Proof.
  induction neighbors as [|n ns IH]; intro H; cbn; [reflexivity|].
  rewrite (H n (or_introl eq_refl)). cbn. apply IH.
  intros m Hm. apply H. right. exact Hm.
Qed.








(** A weighted sum with positive weights stays between the bounds of its
    terms times the total weight. *)
Lemma weighted_sum_bounds (c : list (R * R)) (lo hi : R) :
  (forall p, In p c -> 0 < snd p) ->
  (forall p, In p c -> lo <= fst p <= hi) ->
  lo * similaritySumOf c <= weightedSumOf c <= hi * similaritySumOf c.
Proof.
  unfold similaritySumOf, weightedSumOf.
  induction c as [|[x s] c IH]; intros Hpos Hb; cbn [map Rsum fst snd].
  - lra.
  - assert (Hs : 0 < s) by (apply (Hpos (x, s)); left; reflexivity).
    assert (Hx : lo <= x <= hi) by (apply (Hb (x, s)); left; reflexivity).
    destruct IH as (H1 & H2).
    + intros p Hp. apply Hpos. right. exact Hp.
    + intros p Hp. apply Hb. right. exact Hp.
    + nra.
Qed.


Lemma roundTenth_mono (x y : R) : x <= y -> roundTenth x <= roundTenth y.
Proof.
  intro H. unfold roundTenth. apply toFixed1_mono, IZR_le in H. lra.
Qed.

Lemma toFixed1_of_tenths (n : Z) : Js.toFixed1 (IZR n / 10) = n.
Proof.
  destruct (Z_lt_le_dec n 0) as [Hn|Hn].
  - rewrite <- (Z.opp_involutive n) at 2.
    apply toFixed1_neg.
    + apply IZR_lt in Hn. lra.
    + rewrite opp_IZR. lra.
  - apply toFixed1_nonneg.
    + apply IZR_le in Hn. lra.
    + lra.
Qed.

Lemma roundTenth_of_tenths (n : Z) : roundTenth (IZR n / 10) = IZR n / 10.
Proof. unfold roundTenth. rewrite toFixed1_of_tenths. reflexivity. Qed.








(** ** The orchestrators *)

Lemma unratedMovies_unrated (userRatings : UserRatingVector) (movies : Catalog)
    (m : MovieEntry) :
  In m (unratedMovies userRatings movies) ->
  ~ In (mMovieId m) (map movieId userRatings).
Proof.
  unfold unratedMovies. intro Hin.
  apply in_map_iff in Hin as ([key meta] & <- & Hf).
  apply filter_In in Hf as [_ Hnone]. cbn [fst snd mMovieId] in *.
  apply negb_true_iff in Hnone.
  intro Hrated. apply in_map_iff in Hrated as (r & Hr & Hin).
  assert (Hex : existsb (fun r => Z.eqb (movieId r) key) userRatings = true).
  { apply existsb_exists. exists r. split; [exact Hin|]. apply Z.eqb_eq. exact Hr. }
  rewrite Hex in Hnone. discriminate.
Qed.

Lemma topRecommendations_ok (userRatings : UserRatingVector)
    (neighbors : list NeighborRecord) (movies : Catalog) :
  recommendationsOk userRatings
    (topRecommendations (predictedMovies neighbors (unratedMovies userRatings movies))).
Proof.
  unfold recommendationsOk, topRecommendations. split; [|split].
  - intros p Hp. apply slice0_In in Hp.
    apply (Permutation_in p (Permutation_sym (sortDescBy_perm _ _))) in Hp.
    unfold predictedMovies in Hp. apply in_map_iff in Hp as (m & <- & Hm).
    cbn [pMovieId]. apply (unratedMovies_unrated _ _ _ Hm).
  - apply slice0_length.
  - apply slice0_sorted, sortDescBy_sorted.
Qed.

Lemma recommend_ok (k : nat) (userRatings : UserRatingVector)
    (ratingsData : RatingsTable) (movies : Catalog) :
  recommendationsOk userRatings (snd (recommend k userRatings ratingsData movies)).
Proof. unfold recommend. cbn [snd]. apply topRecommendations_ok. Qed.

(** C7.  The list [main] prints and the list the [/postUserRatings] handler
    sends hold no movie the new user rated, hold at most ten entries and are
    in non-increasing order of predicted rating. *)
Theorem recommendations_unrated_bounded_sorted (userRatings : UserRatingVector)
    (ratingsData : RatingsTable) (movies : Catalog) :
  let printed := snd (main userRatings ratingsData movies) in
  let sent := responseBody (snd (postUserRatings userRatings (mkState movies ratingsData))) in
  ((forall p, In p printed -> ~ In (pMovieId p) (map movieId userRatings)) /\
   (List.length printed <= 10)%nat /\
   nonIncreasingBy (fun p => toNumber (predictedRating p)) printed) /\
  ((forall p, In p sent -> ~ In (pMovieId p) (map movieId userRatings)) /\
   (List.length sent <= 10)%nat /\
   nonIncreasingBy (fun p => toNumber (predictedRating p)) sent).
Proof.
  cbv zeta. split.
  - apply (recommend_ok k_neighbors).
  - unfold postUserRatings. cbn [stMovies stRatingsData].
    destruct userRatings as [|r0 rest]; cbn [List.length].
    + cbn. split; [intros p []|split; [lia|constructor]].
    + pose proof (recommend_ok k_neighbors (r0 :: rest) ratingsData movies) as H.
      destruct (recommend k_neighbors (r0 :: rest) ratingsData movies) as [tbl top].
      cbn [snd responseBody] in *. exact H.
Qed.

Lemma set_new_key_in {A : Type} (obj : list (PropKey * A)) (key : PropKey) (v : A) :
  In (key, v) (Js.set obj key v).
Proof.
  induction obj as [|[k w] obj IH]; cbn; [left; reflexivity|].
  destruct (Js.propKey_eqb k key); [left; reflexivity|].
  destruct (Js.keyBefore key k); [left; reflexivity|right; exact IH].
Qed.

(** X27.  The [/postUserRatings] handler answers an empty array with status
    400 and the message "No ratings provided", and neither registers a user
    nor touches [ratingsData]; no other request is answered with an error,
    so the state is unchanged whenever the handler rejects. *)
Theorem postUserRatings_rejects_empty :
  (forall st, postUserRatings [] st = (st, Status400 "No ratings provided")) /\
  (forall userRatings st error,
     snd (postUserRatings userRatings st) = Status400 error ->
     userRatings = [] /\ fst (postUserRatings userRatings st) = st).
Proof.
  split; [reflexivity|].
  intros userRatings st error. unfold postUserRatings.
  destruct userRatings as [|r0 rest]; cbn [List.length].
  - intros _. split; reflexivity.
  - destruct (recommend k_neighbors (r0 :: rest) (stRatingsData st) (stMovies st)).
    cbn. discriminate.
Qed.

Lemma postUserRatings_rejects_empty_witness :
  snd (postUserRatings [] sampleState) = Status400 "No ratings provided" /\
  fst (postUserRatings [] sampleState) = sampleState.
Proof.
  destruct postUserRatings_rejects_empty as [Hreject Hkeep].
  split.
  - rewrite (Hreject sampleState). reflexivity.
  - apply (Hkeep [] sampleState "No ratings provided"%string).
    rewrite (Hreject sampleState). reflexivity.
Defined.

(** The command-line [main] has no such guard: with no rating at all it
    still registers the newcomer. *)
Lemma main_registers_empty_vector (movies : Catalog) :
  fst (main [] Sample.corpus movies) = Sample.corpus ++ [(KIdx 4, [])].
Proof. reflexivity. Qed.

(** C9.  The command-line [main] does not reject an empty rating sequence:
    with an empty catalog no movie is shown and no rating is collected, and
    [main] registers the newcomer without any rating and runs to its end,
    where the [/postUserRatings] handler answers the same sequence with
    status 400 and leaves the table alone. *)
Theorem main_accepts_empty_ratings :
  getMovieRatings (selectRandomMovies (@rev _) [] numMoviesToDisplay) []
  = Some ([], []) /\
  runMain (@rev _) [] Sample.corpus []
  = Some (Sample.corpus ++ [(KIdx 4, [])], []) /\
  postUserRatings [] (mkState [] Sample.corpus)
  = (mkState [] Sample.corpus, Status400 "No ratings provided").
Proof. repeat split; reflexivity. Qed.

(** A non-empty request does register the newcomer under the fresh key. *)
Lemma postUserRatings_registers (r0 : ItemRating) (rest : UserRatingVector)
    (st : ServerState) :
  In (Js.toPropertyKey (freshUserId (stRatingsData st)), r0 :: rest)
     (stRatingsData (fst (postUserRatings (r0 :: rest) st))).
Proof.
  unfold postUserRatings. cbn [List.length]. unfold recommend.
  cbn [fst stRatingsData]. apply set_new_key_in.
Qed.

(** The scenario run through [main], with the ten neighbours the program
    asks for: item 30 is the only movie the newcomer did not rate, and its
    prediction is ["4.0"]. *)
Lemma main_scenario :
  snd (main Sample.newUser Sample.corpus Sample.catalog) =
  [mkPredicted 30 "Thirty" "Action" (PFixed 40)].
Proof.
  unfold main, recommend, k_neighbors. cbn [snd].
  rewrite freshUserId_corpus.
  change (Js.set Sample.corpus (Js.toPropertyKey (IdNum 4)) Sample.newUser)
    with (Sample.corpus ++ [(KIdx 4, Sample.newUser)]).
  rewrite findNearestNeighbors_unfold.
  eval_candidates.
  rewrite sim_new_user1, sim_new_user2, sim_new_user3, sim_new_new.
  pose proof sim_user3_below_one as Hlt.
  set (x := 2 / sqrt 40) in *.
  eval_sort.
  cbv [unratedMovies predictedMovies Sample.catalog filter map existsb negb orb
       fst snd title genres mMovieId mTitle mGenres movieId
       Sample.newUser Sample.r Z.eqb Pos.eqb].
  eval_predict.
  destruct (Rlt_dec 0 (0 + 1)) as [_|H]; [|exfalso; lra].
  replace (Js.toFixed1 ((0 + 4 * 1) / (0 + 1))) with 40%Z
    by (symmetry; apply toFixed1_nonneg; lra).
  reflexivity.
Qed.

Lemma recommendations_unrated_bounded_sorted_witness :
  In (mkPredicted 30 "Thirty" "Action" (PFixed 40))
     (snd (main Sample.newUser Sample.corpus Sample.catalog)) /\
  ~ In 30%Z (map movieId Sample.newUser).
Proof.
  assert (Hin : In (mkPredicted 30 "Thirty" "Action" (PFixed 40))
                   (snd (main Sample.newUser Sample.corpus Sample.catalog))).
  { rewrite main_scenario. left. reflexivity. }
  split; [exact Hin|].
  destruct (recommendations_unrated_bounded_sorted
              Sample.newUser Sample.corpus Sample.catalog) as [[Hunrated _] _].
  apply (Hunrated _ Hin).
Defined.

(** ** More on the similarity engine *)

Lemma sumBy_Rsum (l : UserRatingVector) : Lodash.sumBy l = Rsum (map rating l).
Proof.
  unfold Lodash.sumBy.
  assert (H : forall acc, fold_left (fun a r => a + rating r) l acc
                          = acc + Rsum (map rating l)).
  { induction l as [|r l IH]; intro acc; cbn [fold_left map Rsum]; [lra|].
    rewrite IH. lra. }
  rewrite H. lra.
Qed.

Lemma baseIntersection_In (seen : list Z) (a : UserRatingVector) (o : list Z)
    (x : ItemRating) :
  In x (Lodash.baseIntersection seen a o) ->
  In x a /\ Lodash.includes (movieId x) o = true.
Proof.
  revert seen. induction a as [|v a IH]; intro seen; cbn; [intros []|].
  destruct (Lodash.includes (movieId v) seen).
  - intro H. destruct (IH _ H). auto.
  - destruct (Lodash.includes (movieId v) o) eqn:E.
    + intros [<-|H]; [auto|]. destruct (IH _ H). auto.
    + intro H. destruct (IH _ H). auto.
Qed.

Lemma includes_In (x : Z) (l : list Z) : Lodash.includes x l = true <-> In x l.
Proof.
  unfold Lodash.includes. rewrite existsb_exists. split.
  - intros (y & Hy & E). apply Z.eqb_eq in E. subst. exact Hy.
  - intro H. exists x. split; [exact H|apply Z.eqb_refl].
Qed.

Lemma intersectionBy_In (a b : UserRatingVector) (x : ItemRating) :
  In x (Lodash.intersectionBy a b) -> In x a /\ In (movieId x) (map movieId b).
Proof.
  intro H. apply baseIntersection_In in H as [Ha Hb].
  split; [exact Ha|apply includes_In; exact Hb].
Qed.

Lemma calculateSimilarity_no_common (a b : UserRatingVector) :
  Lodash.intersectionBy a b = [] -> calculateSimilarity a b = 0.
Proof.
  intro H. apply calculateSimilarity_zero. unfold finalAcc. rewrite H. cbn. lra.
Qed.

(** X1.  Two users who rated no movie in common have similarity [0]; this
    covers a user without any rating. *)
Theorem calculateSimilarity_disjoint (a b : UserRatingVector) :
  (forall r, In r a -> ~ In (movieId r) (map movieId b)) ->
  calculateSimilarity a b = 0.
Proof.
  intro Hdisj. apply calculateSimilarity_no_common.
  destruct (Lodash.intersectionBy a b) as [|x l] eqn:E; [reflexivity|exfalso].
  assert (Hx : In x (Lodash.intersectionBy a b)) by (rewrite E; left; reflexivity).
  apply intersectionBy_In in Hx as [Ha Hb]. exact (Hdisj x Ha Hb).
Qed.

Lemma calculateSimilarity_disjoint_witness :
  calculateSimilarity Sample.newUser Sample.stranger = 0 /\
  calculateSimilarity [] Sample.user1 = 0.
Proof.
  split.
  - apply (calculateSimilarity_disjoint Sample.newUser Sample.stranger).
    intros r [<-|[<-|[]]]; cbn; intros [H|[]]; discriminate.
  - apply (calculateSimilarity_disjoint [] Sample.user1). intros r [].
Defined.

Lemma Rsum_const (c : R) (l : UserRatingVector) :
  (forall r, In r l -> rating r = c) -> Rsum (map rating l) = INR (List.length l) * c.
Proof.
  induction l as [|r l IH]; intro H.
  - cbn. lra.
  - cbn [map Rsum]. rewrite IH by (intros x Hx; apply H; right; exact Hx).
    rewrite (H r (or_introl eq_refl)).
    change (List.length (r :: l)) with (S (List.length l)). rewrite S_INR. lra.
Qed.

Lemma meanBy_const (c : R) (l : UserRatingVector) :
  l <> [] -> (forall r, In r l -> rating r = c) -> Lodash.meanBy l = c.
Proof.
  intros Hne H. unfold Lodash.meanBy. rewrite sumBy_Rsum, (Rsum_const c l H).
  assert (Hn : INR (List.length l) <> 0).
  { apply not_0_INR. destruct l; [contradiction|discriminate]. }
  field. exact Hn.
Qed.

Lemma Rsum_zero (f : ItemRating -> R) (l : UserRatingVector) :
  (forall x, In x l -> f x = 0) -> Rsum (map f l) = 0.
Proof.
  induction l as [|r l IH]; intro H; cbn [map Rsum]; [reflexivity|].
  rewrite IH by (intros x Hx; apply H; right; exact Hx).
  rewrite (H r (or_introl eq_refl)). lra.
Qed.

(** X2.  A user who gave every movie the same whole or half number of stars
    has similarity [0], as first argument, with every user whose ratings are
    between 0 and 5. *)
Theorem calculateSimilarity_flat_first (a b : UserRatingVector) (c : R) :
  (exists z : Z, (0 <= z <= 10)%Z /\ c = IZR z / 2) ->
  (forall r, In r a -> rating r = c) ->
  (forall r, In r b -> 0 <= rating r <= 5) ->
  calculateSimilarity a b = 0.
Proof.
  intros _ Hflat _. destruct a as [|r0 a'] eqn:Ea.
  - apply calculateSimilarity_no_common. reflexivity.
  - rewrite <- Ea in *. assert (Hne : a <> []) by (rewrite Ea; discriminate).
    apply calculateSimilarity_zero. unfold finalAcc.
    rewrite fold_pearsonStep. cbn [sum1 sum2].
    rewrite (meanBy_const c a Hne Hflat).
    rewrite (Rsum_zero (fun m => (rating m - c) ^ 2)).
    + lra.
    + intros x Hx. apply intersectionBy_In in Hx as [Hx _].
      rewrite (Hflat x Hx). lra.
Qed.

Lemma calculateSimilarity_flat_first_witness :
  calculateSimilarity Sample.user3 Sample.user2 = 0.
Proof.
  apply (calculateSimilarity_flat_first Sample.user3 Sample.user2 1).
  - exists 2%Z. split; [lia|lra].
  - intros r [<-|[<-|[]]]; reflexivity.
  - intros r [<-|[<-|[<-|[]]]]; cbn; lra.
Defined.








(** ** More on the neighbourhood selector *)

Lemma candidates_length_le (userId : JsId) (ratingsData : RatingsTable) :
  (List.length (candidates userId ratingsData) <= List.length ratingsData)%nat.
Proof. unfold candidates. rewrite length_map. apply filter_length_le. Qed.

Lemma candidates_In (userId : JsId) (ratingsData : RatingsTable) (n : NeighborRecord) :
  In n (candidates userId ratingsData) ->
  In (nUserId n, nRatings n) ratingsData /\
  Js.strictNeq (nUserId n) userId = true /\
  similarity n = calculateSimilarity (targetRatings userId ratingsData) (nRatings n).
Proof.
  unfold candidates. intro H. apply in_map_iff in H as ([key v] & <- & Hf).
  apply filter_In in Hf as [Hin Hneq]. cbn in *. auto.
Qed.

Lemma findNearestNeighbors_In_candidates (userId : JsId) (ratingsData : RatingsTable)
    (k : nat) (n : NeighborRecord) :
  In n (findNearestNeighbors userId ratingsData k) -> In n (candidates userId ratingsData).
Proof.
  rewrite findNearestNeighbors_unfold. intro H. apply slice0_In in H.
  apply (Permutation_in n (Permutation_sym (sortDescBy_perm similarity _))). exact H.
Qed.

(** X5.  Every record returned by [findNearestNeighbors] is a user of the
    table with that user's ratings, and its similarity is the one of the
    target's ratings with them. *)
Theorem findNearestNeighbors_records (userId : JsId) (ratingsData : RatingsTable)
    (k : nat) (n : NeighborRecord) :
  In n (findNearestNeighbors userId ratingsData k) ->
  In (nUserId n, nRatings n) ratingsData /\
  similarity n = calculateSimilarity (targetRatings userId ratingsData) (nRatings n).
Proof.
  intro H. apply findNearestNeighbors_In_candidates, candidates_In in H.
  destruct H as (H1 & _ & H2). auto.
Qed.

Lemma smallTable_neighbors :
  findNearestNeighbors (IdStr (KIdx 2)) Sample.smallTable 1 =
  [mkNeighbor (KIdx 1) 0 Sample.stranger].
Proof.
  rewrite findNearestNeighbors_unfold. eval_candidates.
  rewrite sim_new_stranger. eval_sort. reflexivity.
Qed.

Lemma findNearestNeighbors_records_witness :
  In (KIdx 1, Sample.stranger) Sample.smallTable /\
  0 = calculateSimilarity Sample.newUser Sample.stranger.
Proof.
  apply (findNearestNeighbors_records (IdStr (KIdx 2)) Sample.smallTable 1
           (mkNeighbor (KIdx 1) 0 Sample.stranger)).
  rewrite smallTable_neighbors. left. reflexivity.
Defined.



Lemma findNearestNeighbors_skips_string_id_witness :
  nUserId (mkNeighbor (KIdx 1) 0 Sample.stranger) <> KIdx 2.
Proof.
  apply (findNearestNeighbors_skips_string_id (KIdx 2) Sample.smallTable 1).
  rewrite smallTable_neighbors. left. reflexivity.
Defined.

Lemma findNearestNeighbors_keeps_numeric_id_witness :
  In (KIdx 2) (map nUserId (findNearestNeighbors (IdNum 2) Sample.smallTable 2)).
Proof.
  apply (findNearestNeighbors_keeps_numeric_id 2 Sample.smallTable 2 Sample.newUser).
  - reflexivity.
  - cbn. lia.
Defined.

Section Stability.

Context {A : Type} (key : A -> R) (v : R).

Let tied (x : A) : bool := Req_bool (key x) v.

Lemma insertDesc_stable (x : A) (l : list A) :
  filter tied (Js.insertDesc key x l) = filter tied (x :: l).
Proof.
  induction l as [|y l IH]; [reflexivity|].
  cbn [Js.insertDesc]. unfold Js.Rltb.
  destruct (Rlt_dec (key x) (key y)) as [Hlt|_]; [|reflexivity].
  cbn [filter] in *. rewrite IH. unfold tied, Req_bool.
  destruct (Req_dec_T (key x) v) as [Hx|Hx], (Req_dec_T (key y) v) as [Hy|Hy];
    try reflexivity.
  exfalso. lra.
Qed.

Lemma sortDescBy_stable (l : list A) :
  filter tied (Js.sortDescBy key l) = filter tied l.
Proof.
  induction l as [|x l IH]; [reflexivity|].
  cbn [Js.sortDescBy fold_right]. rewrite insertDesc_stable.
  cbn [filter]. fold (Js.sortDescBy key l). rewrite IH. reflexivity.
Qed.

End Stability.

(** X7.  Ties keep the order of the table: when nobody is cut off, the
    neighbours of any given similarity come in the order in which
    [Object.entries] lists them. *)
Theorem findNearestNeighbors_ties_in_table_order (userId : JsId)
    (ratingsData : RatingsTable) (k : nat) (v : R) :
  (List.length ratingsData <= k)%nat ->
  filter (fun n => Req_bool (similarity n) v) (findNearestNeighbors userId ratingsData k)
  = filter (fun n => Req_bool (similarity n) v) (candidates userId ratingsData).
Proof.
  intro Hk. rewrite findNearestNeighbors_unfold, slice0_all.
  - apply sortDescBy_stable.
  - rewrite <- (Permutation_length (sortDescBy_perm similarity _)).
    pose proof (candidates_length_le userId ratingsData). lia.
Qed.

Lemma findNearestNeighbors_ties_in_table_order_witness :
  filter (fun n => Req_bool (similarity n) 1)
         (findNearestNeighbors (IdNum 4) Sample.corpus' 4)
  = filter (fun n => Req_bool (similarity n) 1) (candidates (IdNum 4) Sample.corpus').
Proof.
  apply (findNearestNeighbors_ties_in_table_order (IdNum 4) Sample.corpus' 4 1).
  cbn. lia.
Defined.

(** ** The ratings table as an object *)

Lemma propKey_eqb_refl (k : PropKey) : Js.propKey_eqb k k = true.
Proof. apply propKey_eqb_eq. reflexivity. Qed.

Lemma propKey_eqb_neq (a b : PropKey) : a <> b -> Js.propKey_eqb a b = false.
Proof.
  intro H. destruct (Js.propKey_eqb a b) eqn:E; [|reflexivity].
  apply propKey_eqb_eq in E. contradiction.
Qed.

Lemma get_set_same {A : Type} (obj : list (PropKey * A)) (key : PropKey) (v : A) :
  Js.get (Js.set obj key v) key = Some v.
Proof.
  induction obj as [|[k w] obj IH]; cbn.
  - rewrite propKey_eqb_refl. reflexivity.
  - destruct (Js.propKey_eqb k key) eqn:E.
    + cbn. rewrite propKey_eqb_refl. reflexivity.
    + destruct (Js.keyBefore key k); cbn.
      * rewrite propKey_eqb_refl. reflexivity.
      * rewrite E. exact IH.
Qed.

Lemma get_set_other {A : Type} (obj : list (PropKey * A)) (key key' : PropKey) (v : A) :
  key' <> key -> Js.get (Js.set obj key v) key' = Js.get obj key'.
Proof.
  intro Hneq.
  assert (Hk : Js.propKey_eqb key key' = false)
    by (apply propKey_eqb_neq; intro E; apply Hneq; symmetry; exact E).
  induction obj as [|[k w] obj IH]; cbn.
  - rewrite Hk. reflexivity.
  - destruct (Js.propKey_eqb k key) eqn:E.
    + apply propKey_eqb_eq in E. subst k. cbn. rewrite Hk. reflexivity.
    + destruct (Js.keyBefore key k); cbn.
      * rewrite Hk. reflexivity.
      * rewrite IH. reflexivity.
Qed.

Lemma get_None_iff {A : Type} (obj : list (PropKey * A)) (key : PropKey) :
  Js.get obj key = None <-> ~ In key (map fst obj).
Proof.
  induction obj as [|[k w] obj IH]; cbn.
  - split; [intros _ []|reflexivity].
  - destruct (Js.propKey_eqb k key) eqn:E.
    + apply propKey_eqb_eq in E. split; [discriminate|]. intro H. exfalso. auto.
    + rewrite IH. split.
      * intros H [Hk|Hin]; [|contradiction].
        subst. rewrite propKey_eqb_refl in E. discriminate.
      * intros H Hin. apply H. right. exact Hin.
Qed.

Lemma set_length_new {A : Type} (obj : list (PropKey * A)) (key : PropKey) (v : A) :
  Js.get obj key = None -> List.length (Js.set obj key v) = S (List.length obj).
Proof.
  induction obj as [|[k w] obj IH]; cbn; [reflexivity|].
  destruct (Js.propKey_eqb k key); [discriminate|].
  destruct (Js.keyBefore key k); cbn; [reflexivity|].
  intro H. rewrite (IH H). reflexivity.
Qed.

Lemma set_NaN_length {A : Type} (obj : list (PropKey * A)) (v w : A) :
  Js.get obj KNaN = Some w -> List.length (Js.set obj KNaN v) = List.length obj.
Proof.
  induction obj as [|[k u] obj IH]; cbn; [discriminate|].
  destruct (Js.propKey_eqb k KNaN); [reflexivity|].
  intro H. cbn. rewrite (IH H). reflexivity.
Qed.

Lemma set_In {A : Type} (obj : list (PropKey * A)) (key : PropKey) (v : A)
    (e : PropKey * A) :
  In e (Js.set obj key v) -> e = (key, v) \/ In e obj.
Proof.
  induction obj as [|[k w] obj IH]; cbn.
  - intros [H|[]]. left. symmetry. exact H.
  - destruct (Js.propKey_eqb k key).
    + intros [H|H]; [left; symmetry; exact H|right; right; exact H].
    + destruct (Js.keyBefore key k).
      * intros [H|H]; [left; symmetry; exact H|right; exact H].
      * intros [H|H]; [right; left; exact H|].
        destruct (IH H) as [E|Hin]; [left; exact E|right; right; exact Hin].
Qed.

Lemma set_keys {A : Type} (obj : list (PropKey * A)) (key : PropKey) (v : A)
    (k' : PropKey) :
  In k' (map fst (Js.set obj key v)) <-> k' = key \/ In k' (map fst obj).
Proof.
  induction obj as [|[k w] obj IH]; cbn.
  - split; [intros [H|[]]; left; symmetry; exact H|intros [H|[]]; left; symmetry; exact H].
  - destruct (Js.propKey_eqb k key) eqn:E.
    + apply propKey_eqb_eq in E. subst k. cbn. intuition.
    + destruct (Js.keyBefore key k); cbn.
      * intuition.
      * rewrite IH. intuition.
Qed.

(** [maxKey] is the greatest integer key, if there is one. *)
Lemma maxKey_fold (l : RatingsTable) (best : option N) :
  match fold_left
          (fun best entry =>
             match fst entry, best with
             | KIdx n, None => Some n
             | KIdx n, Some m => if N.ltb m n then Some n else Some m
             | KNaN, _ => best
             end) l best with
  | Some n =>
      (best = Some n \/ In (KIdx n) (keysOf l)) /\
      (forall m, In (KIdx m) (keysOf l) -> (m <= n)%N) /\
      (forall b, best = Some b -> (b <= n)%N)
  | None => best = None /\ forall m, ~ In (KIdx m) (keysOf l)
  end.
Proof.
  revert best. induction l as [|[k v] l IH]; intro best; cbn [fold_left keysOf map fst].
  - destruct best as [b|].
    + split; [left; reflexivity|split; [intros m []|]].
      intros b' H. injection H as ->. lia.
    + split; [reflexivity|intros m []].
  - match goal with |- context [fold_left ?f l ?b0] =>
      specialize (IH b0); destruct (fold_left f l b0) as [n|] end.
    + destruct IH as (Hin & Hub & Hbest).
      destruct k as [i|], best as [b|].
      * destruct (N.ltb b i) eqn:E.
        -- apply N.ltb_lt in E. pose proof (Hbest i eq_refl) as Hbi.
           split; [|split].
           ++ destruct Hin as [H|H]; [injection H as <-|]; right; cbn; auto.
           ++ intros m [H|H]; [injection H as <-; assumption|apply Hub; exact H].
           ++ intros b' H. injection H as <-. lia.
        -- apply N.ltb_ge in E. pose proof (Hbest b eq_refl) as Hbb.
           split; [|split].
           ++ destruct Hin as [H|H]; [left; exact H|right; cbn; auto].
           ++ intros m [H|H]; [injection H as <-; lia|apply Hub; exact H].
           ++ intros b' H. injection H as <-. assumption.
      * pose proof (Hbest i eq_refl) as Hbi. split; [|split].
        -- destruct Hin as [H|H]; [injection H as <-|]; right; cbn; auto.
        -- intros m [H|H]; [injection H as <-; assumption|apply Hub; exact H].
        -- intros b' H. discriminate.
      * split; [|split].
        -- destruct Hin as [H|H]; [left; exact H|right; cbn; auto].
        -- intros m [H|H]; [discriminate|apply Hub; exact H].
        -- exact Hbest.
      * split; [|split].
        -- destruct Hin as [H|H]; [left; exact H|right; cbn; auto].
        -- intros m [H|H]; [discriminate|apply Hub; exact H].
        -- exact Hbest.
    + destruct IH as (Hnone & Hno).
      destruct k as [i|], best as [b|]; try discriminate.
      * destruct (N.ltb b i); discriminate.
      * split; [reflexivity|]. intros m [H|H]; [discriminate|exact (Hno m H)].
Qed.

Lemma maxKey_Some (l : RatingsTable) (n : N) :
  maxKey l = Some n ->
  In (KIdx n) (keysOf l) /\ forall m, In (KIdx m) (keysOf l) -> (m <= n)%N.
Proof.
  intro H. pose proof (maxKey_fold l None) as Hf. fold (maxKey l) in Hf.
  rewrite H in Hf. destruct Hf as ([Hb|Hin] & Hub & _); [discriminate|auto].
Qed.

Lemma maxKey_None (l : RatingsTable) :
  maxKey l = None -> forall m, ~ In (KIdx m) (keysOf l).
Proof.
  intro H. pose proof (maxKey_fold l None) as Hf. fold (maxKey l) in Hf.
  rewrite H in Hf. destruct Hf as [_ Hno]. exact Hno.
Qed.

Lemma maxKey_greatest (l : RatingsTable) (n : N) :
  In (KIdx n) (keysOf l) -> (forall m, In (KIdx m) (keysOf l) -> (m <= n)%N) ->
  maxKey l = Some n.
Proof.
  intros Hin Hub. destruct (maxKey l) as [n'|] eqn:E.
  - apply maxKey_Some in E as [Hin' Hub'].
    pose proof (Hub n' Hin'). pose proof (Hub' n Hin). f_equal. lia.
  - exfalso. exact (maxKey_None l E n Hin).
Qed.

Lemma maxKey_exists (l : RatingsTable) (m : N) :
  In (KIdx m) (keysOf l) -> exists n, maxKey l = Some n.
Proof.
  intro Hin. destruct (maxKey l) as [n|] eqn:E; [exists n; reflexivity|].
  exfalso. exact (maxKey_None l E m Hin).
Qed.

Lemma toDouble_exact (n : N) : (n <= 9007199254740992)%N -> toDouble n = n.
Proof.
  intro H. unfold toDouble. apply N.leb_le in H. rewrite H. reflexivity.
Qed.

Lemma freshUserId_exact (l : RatingsTable) (n : N) :
  maxKey l = Some n -> (n < 9007199254740992)%N -> freshUserId l = IdNum (n + 1).
Proof.
  intros Hmax Hn. unfold freshUserId. rewrite Hmax.
  rewrite (toDouble_exact n) by lia. rewrite toDouble_exact by lia. reflexivity.
Qed.

(** What registering the newcomer does to a table whose greatest integer
    key is below [2^53]: the fresh key is new, one entry is added, the
    others keep their vectors, and the greatest key is the fresh one. *)
Lemma register_fresh (l : RatingsTable) (n : N) (v : UserRatingVector) :
  maxKey l = Some n -> (n < 9007199254740992)%N ->
  let l' := Js.set l (Js.toPropertyKey (freshUserId l)) v in
  freshUserId l = IdNum (n + 1) /\
  Js.get l (KIdx (n + 1)) = None /\
  Js.get l' (KIdx (n + 1)) = Some v /\
  List.length l' = S (List.length l) /\
  (forall key w, Js.get l key = Some w -> Js.get l' key = Some w) /\
  maxKey l' = Some (n + 1)%N.
Proof.
  intros Hmax Hsafe. cbv zeta. rewrite (freshUserId_exact l n Hmax Hsafe).
  cbn [Js.toPropertyKey].
  destruct (maxKey_Some l n Hmax) as [Hin Hub].
  assert (Hnew : Js.get l (KIdx (n + 1)) = None).
  { apply get_None_iff. intro H. apply Hub in H. lia. }
  split; [reflexivity|split; [exact Hnew|split; [apply get_set_same|split]]].
  - apply set_length_new. exact Hnew.
  - split.
    + intros key w Hget. rewrite get_set_other; [exact Hget|].
      intro E. subst key. rewrite Hnew in Hget. discriminate.
    + apply maxKey_greatest.
      * apply set_keys. left. reflexivity.
      * intros m Hm. apply set_keys in Hm as [E|Hm].
        -- injection E as ->. lia.
        -- apply Hub in Hm. lia.
Qed.

(** At [2^53] the addition is absorbed: the generated id is the greatest
    key itself. *)
Lemma freshUserId_absorbed (l : RatingsTable) :
  maxKey l = Some 9007199254740992%N -> freshUserId l = IdNum 9007199254740992.
Proof. intro H. unfold freshUserId. rewrite H. reflexivity. Qed.

(** ** More on the orchestrators *)

(** X8.  When the table has at least one integer key and all its integer
    keys are below [2^53], the fresh id is a number greater than every
    integer key, and no user is registered under it yet. *)
Theorem freshUserId_is_fresh (ratingsData : RatingsTable) (m : N) :
  In (KIdx m) (keysOf ratingsData) ->
  (forall i, In (KIdx i) (keysOf ratingsData) -> (i < 9007199254740992)%N) ->
  exists n, freshUserId ratingsData = IdNum n /\
            (forall i, In (KIdx i) (keysOf ratingsData) -> (i < n)%N) /\
            Js.get ratingsData (Js.toPropertyKey (freshUserId ratingsData)) = None.
Proof.
  intros Hin Hsafe. destruct (maxKey_exists _ _ Hin) as [n Hmax].
  assert (Hn : (n < 9007199254740992)%N)
    by (apply Hsafe; apply (maxKey_Some _ _ Hmax)).
  destruct (register_fresh ratingsData n [] Hmax Hn) as (Hid & Hnew & _).
  exists (n + 1)%N. rewrite Hid. cbn [Js.toPropertyKey].
  split; [reflexivity|split; [|exact Hnew]].
  intros i Hi. apply (maxKey_Some _ _ Hmax) in Hi. lia.
Qed.

Lemma freshUserId_is_fresh_witness :
  exists n, freshUserId Sample.corpus = IdNum n /\
            (forall i, In (KIdx i) (keysOf Sample.corpus) -> (i < n)%N) /\
            Js.get Sample.corpus (Js.toPropertyKey (freshUserId Sample.corpus)) = None.
Proof.
  apply (freshUserId_is_fresh Sample.corpus 1); [left; reflexivity|].
  intros i [E|[E|[E|[]]]]; injection E as <-; reflexivity.
Defined.

(** X9.  After the orchestrator ran, the newcomer's ratings are stored
    under the fresh key, and every other key reads as before. *)
Theorem recommend_registers_newcomer (k : nat) (userRatings : UserRatingVector)
    (ratingsData : RatingsTable) (movies : Catalog) :
  let newKey := Js.toPropertyKey (freshUserId ratingsData) in
  let ratingsData' := fst (recommend k userRatings ratingsData movies) in
  Js.get ratingsData' newKey = Some userRatings /\
  forall key, key <> newKey -> Js.get ratingsData' key = Js.get ratingsData key.
Proof.
  cbv zeta. unfold recommend. cbn [fst]. split.
  - apply get_set_same.
  - intros key Hneq. apply get_set_other. exact Hneq.
Qed.

Lemma recommend_registers_newcomer_witness :
  Js.get (fst (recommend 2 Sample.newUser Sample.corpus Sample.catalog)) (KIdx 4)
  = Some Sample.newUser /\
  Js.get (fst (recommend 2 Sample.newUser Sample.corpus Sample.catalog)) (KIdx 2)
  = Js.get Sample.corpus (KIdx 2).
Proof.
  destruct (recommend_registers_newcomer 2 Sample.newUser Sample.corpus Sample.catalog)
    as [Hnew Hold].
  split; [exact Hnew|]. apply Hold. discriminate.
Defined.

(** X10.  On a table that has an integer key and whose integer keys are
    all below [2^53], one run adds exactly one entry, keeps every user's
    vector, and generates the number after the greatest key; the next id
    is one more as long as that number is below [2^53] too. *)
Theorem recommend_grows_by_one (k : nat) (userRatings : UserRatingVector)
    (ratingsData : RatingsTable) (movies : Catalog) (m : N) :
  In (KIdx m) (keysOf ratingsData) ->
  (forall i, In (KIdx i) (keysOf ratingsData) -> (i < 9007199254740992)%N) ->
  let ratingsData' := fst (recommend k userRatings ratingsData movies) in
  List.length ratingsData' = S (List.length ratingsData) /\
  (forall key v, Js.get ratingsData key = Some v -> Js.get ratingsData' key = Some v) /\
  exists n, freshUserId ratingsData = IdNum n /\
            ((n < 9007199254740992)%N -> freshUserId ratingsData' = IdNum (n + 1)).
Proof.
  intros Hin Hsafe. cbv zeta. destruct (maxKey_exists _ _ Hin) as [n Hmax].
  assert (Hn : (n < 9007199254740992)%N)
    by (apply Hsafe; apply (maxKey_Some _ _ Hmax)).
  destruct (register_fresh ratingsData n userRatings Hmax Hn)
    as (Hid & _ & _ & Hlen & Hkeep & Hmax').
  unfold recommend. cbn [fst].
  split; [exact Hlen|split; [exact Hkeep|]].
  exists (n + 1)%N. split; [exact Hid|].
  intro Hnext. apply freshUserId_exact; assumption.
Qed.

Lemma recommend_grows_by_one_witness :
  List.length (fst (recommend 2 Sample.newUser Sample.corpus Sample.catalog)) = 4%nat /\
  freshUserId (fst (recommend 2 Sample.newUser Sample.corpus Sample.catalog)) = IdNum 5.
Proof.
  destruct (recommend_grows_by_one 2 Sample.newUser Sample.corpus Sample.catalog 1)
    as (Hlen & _ & n & Hn & Hn').
  - left. reflexivity.
  - intros i [E|[E|[E|[]]]]; injection E as <-; reflexivity.
  - split; [exact Hlen|].
    rewrite freshUserId_corpus in Hn. injection Hn as <-.
    rewrite Hn' by reflexivity. reflexivity.
Defined.

Lemma freshUserId_NaN (ratingsData : RatingsTable) :
  (forall m, ~ In (KIdx m) (keysOf ratingsData)) -> freshUserId ratingsData = IdNaN.
Proof.
  intro Hno. unfold freshUserId. destruct (maxKey ratingsData) as [n|] eqn:E.
  - exfalso. apply maxKey_Some in E as [Hin _]. exact (Hno n Hin).
  - reflexivity.
Qed.

(** X11.  On a table without integer key, the empty table above all, the
    fresh id is [NaN]: the newcomer is stored under the key ["NaN"], and
    the next newcomer takes that place instead of being added. *)
Theorem recommend_without_integer_key (k : nat) (first second : UserRatingVector)
    (ratingsData : RatingsTable) (movies : Catalog) :
  (forall m, ~ In (KIdx m) (keysOf ratingsData)) ->
  let table1 := fst (recommend k first ratingsData movies) in
  let table2 := fst (recommend k second table1 movies) in
  Js.get table1 KNaN = Some first /\
  Js.get table2 KNaN = Some second /\
  List.length table2 = List.length table1.
Proof.
  intro Hno. cbv zeta. unfold recommend. cbn [fst].
  rewrite (freshUserId_NaN ratingsData Hno). cbn [Js.toPropertyKey].
  assert (Hno1 : forall m, ~ In (KIdx m) (keysOf (Js.set ratingsData KNaN first))).
  { intros m Hm. apply set_keys in Hm as [E|Hm]; [discriminate|exact (Hno m Hm)]. }
  rewrite (freshUserId_NaN _ Hno1). cbn [Js.toPropertyKey].
  split; [apply get_set_same|split; [apply get_set_same|]].
  apply set_NaN_length with (w := first). apply get_set_same.
Qed.

Lemma recommend_without_integer_key_witness :
  fst (recommend 10 Sample.user1 (fst (recommend 10 Sample.newUser [] Sample.catalog))
         Sample.catalog)
  = [(KNaN, Sample.user1)] /\
  List.length (fst (recommend 10 Sample.user1
                      (fst (recommend 10 Sample.newUser [] Sample.catalog))
                      Sample.catalog))
  = List.length (fst (recommend 10 Sample.newUser [] Sample.catalog)).
Proof.
  split; [reflexivity|].
  apply (recommend_without_integer_key 10 Sample.newUser Sample.user1 [] Sample.catalog).
  intros m [].
Defined.

Lemma postUserRatings_table (body : UserRatingVector) (st : ServerState) :
  stMovies (fst (postUserRatings body st)) = stMovies st /\
  stRatingsData (fst (postUserRatings body st)) =
  match body with
  | [] => stRatingsData st
  | _ :: _ => Js.set (stRatingsData st)
                (Js.toPropertyKey (freshUserId (stRatingsData st))) body
  end.
Proof.
  unfold postUserRatings. destruct body as [|r0 rest]; cbn [List.length].
  - split; reflexivity.
  - unfold recommend. cbn. split; reflexivity.
Qed.

(** X12.  Over any sequence of requests to a server whose table has an
    integer key, as long as the generated ids stay within [2^53], the
    catalog stays as loaded, the table gains one entry per non-empty
    request, and every user keeps the vector it had. *)
Theorem serve_accumulates (requests : list UserRatingVector) (st : ServerState) (m : N) :
  In (KIdx m) (keysOf (stRatingsData st)) ->
  (forall i, In (KIdx i) (keysOf (stRatingsData st)) ->
     (i + N.of_nat (List.length (accepted requests)) <= 9007199254740992)%N) ->
  stMovies (serve requests st) = stMovies st /\
  List.length (stRatingsData (serve requests st))
  = (List.length (stRatingsData st) + List.length (accepted requests))%nat /\
  forall key v, Js.get (stRatingsData st) key = Some v ->
                Js.get (stRatingsData (serve requests st)) key = Some v.
Proof.
  revert st m. unfold serve.
  induction requests as [|body requests IH]; intros st m Hin Hsafe.
  - cbn. split; [reflexivity|split; [lia|auto]].
  - cbn [fold_left accepted filter] in *.
    destruct (postUserRatings_table body st) as [Hmov Htab].
    destruct body as [|r0 rest].
    + cbn [List.length Nat.eqb negb] in *. fold (accepted requests) in *.
      destruct (IH (fst (postUserRatings [] st)) m) as (H1 & H2 & H3).
      { rewrite Htab. exact Hin. }
      { rewrite Htab. exact Hsafe. }
      rewrite Htab, Hmov in *. auto.
    + cbn [List.length Nat.eqb negb] in *. fold (accepted requests) in *.
      destruct (maxKey_exists _ _ Hin) as [n Hmax].
      pose proof (maxKey_Some _ _ Hmax) as [Hnin Hub].
      pose proof (Hsafe n Hnin) as Hn. cbn [List.length] in Hn.
      assert (Hn' : (n < 9007199254740992)%N) by lia.
      destruct (register_fresh (stRatingsData st) n (r0 :: rest) Hmax Hn')
        as (Hid & _ & _ & Hlen & Hkeep & _).
      cbv zeta in Hlen, Hkeep. rewrite <- Htab in Hlen, Hkeep.
      destruct (IH (fst (postUserRatings (r0 :: rest) st)) m) as (H1 & H2 & H3).
      { rewrite Htab. apply set_keys. right. exact Hin. }
      { intros i Hi. rewrite Htab, Hid in Hi. cbn [Js.toPropertyKey] in Hi.
        apply set_keys in Hi as [E|Hi].
        - injection E as ->. lia.
        - specialize (Hsafe i Hi). cbn [List.length] in Hsafe. lia. }
      rewrite Hmov in H1.
      split; [exact H1|split].
      * rewrite H2, Hlen. cbn [List.length]. lia.
      * intros key v Hget. apply H3, Hkeep. exact Hget.
Qed.

Lemma serve_accumulates_witness :
  List.length (stRatingsData (serve [Sample.newUser; []; Sample.stranger] sampleState))
  = 5%nat /\
  Js.get (stRatingsData (serve [Sample.newUser; []; Sample.stranger] sampleState)) (KIdx 2)
  = Some Sample.user2.
Proof.
  destruct (serve_accumulates [Sample.newUser; []; Sample.stranger] sampleState 1)
    as (_ & Hlen & Hkeep).
  - left. reflexivity.
  - intros i [E|[E|[E|[]]]]; injection E as <-; cbv; discriminate.
  - split; [exact Hlen|]. apply Hkeep. reflexivity.
Defined.

Lemma topRecommendations_In (predicted : list PredictedRating) (p : PredictedRating) :
  In p (topRecommendations predicted) -> In p predicted.
Proof.
  unfold topRecommendations. intro H. apply slice0_In in H.
  apply (Permutation_in p (Permutation_sym (sortDescBy_perm _ _))) in H. exact H.
Qed.

Lemma unratedMovies_In (userRatings : UserRatingVector) (movies : Catalog)
    (m : MovieEntry) :
  In m (unratedMovies userRatings movies) ->
  In (mMovieId m, mkItemMeta (mTitle m) (mGenres m)) movies /\
  findRating (mMovieId m) userRatings = None.
Proof.
  unfold unratedMovies. intro H. apply in_map_iff in H as ([key [t g]] & <- & Hf).
  apply filter_In in Hf as [Hin Hnone]. cbn [fst snd mMovieId mTitle mGenres title genres] in *.
  split; [exact Hin|].
  apply negb_true_iff in Hnone. unfold findRating.
  destruct (find (fun r => Z.eqb (movieId r) key) userRatings) as [r|] eqn:E;
    [|reflexivity].
  apply find_some in E as [Hr Hk].
  assert (Hex : existsb (fun r => Z.eqb (movieId r) key) userRatings = true)
    by (apply existsb_exists; exists r; auto).
  rewrite Hex in Hnone. discriminate.
Qed.

Lemma recommend_In (k : nat) (userRatings : UserRatingVector)
    (ratingsData : RatingsTable) (movies : Catalog) (p : PredictedRating) :
  In p (snd (recommend k userRatings ratingsData movies)) ->
  In (pMovieId p, mkItemMeta (pTitle p) (pGenres p)) movies /\
  findRating (pMovieId p) userRatings = None /\
  predictedRating p =
  predictRating (pMovieId p)
    (findNearestNeighbors (freshUserId ratingsData)
       (fst (recommend k userRatings ratingsData movies)) k).
Proof.
  unfold recommend. cbn [fst snd]. intro H.
  apply topRecommendations_In in H. unfold predictedMovies in H.
  apply in_map_iff in H as (m & <- & Hm).
  apply unratedMovies_In in Hm as [Hcat Hnone].
  cbn [pMovieId pTitle pGenres predictedRating]. auto.
Qed.

Lemma recommend_complete (k : nat) (userRatings : UserRatingVector)
    (ratingsData : RatingsTable) (movies : Catalog) (key : Z) (meta : ItemMeta) :
  (List.length movies <= 10)%nat ->
  In (key, meta) movies -> findRating key userRatings = None ->
  In (mkPredicted key (title meta) (genres meta)
        (predictRating key
           (findNearestNeighbors (freshUserId ratingsData)
              (fst (recommend k userRatings ratingsData movies)) k)))
     (snd (recommend k userRatings ratingsData movies)).
Proof.
  intros Hlen Hin Hnone. unfold recommend. cbn [fst snd].
  unfold topRecommendations. rewrite slice0_all.
  - apply (Permutation_in _ (sortDescBy_perm _ _)).
    unfold predictedMovies. apply in_map_iff.
    exists (mkMovie key (title meta) (genres meta)). split; [reflexivity|].
    unfold unratedMovies. apply in_map_iff. exists (key, meta).
    split; [reflexivity|]. apply filter_In. split; [exact Hin|].
    cbn [fst]. apply negb_true_iff.
    destruct (existsb (fun r => Z.eqb (movieId r) key) userRatings) eqn:E;
      [|reflexivity].
    apply existsb_exists in E as (r & Hr & Hk).
    unfold findRating in Hnone.
    apply (find_none _ _ Hnone) in Hr. rewrite Hr in Hk. discriminate.
  - rewrite <- (Permutation_length (sortDescBy_perm _ _)).
    unfold predictedMovies, unratedMovies. rewrite !length_map.
    pose proof (filter_length_le
                  (fun entry => negb (existsb (fun r => Z.eqb (movieId r) (fst entry))
                                             userRatings)) movies). lia.
Qed.

(** X13.  Every recommendation is an entry of the catalog with its title
    and genres, its predicted rating is the one [predictRating] gives for
    the neighbourhood of the newcomer, and with at most ten movies in the
    catalog every movie the newcomer did not rate is recommended. *)
Theorem recommend_entries (k : nat) (userRatings : UserRatingVector)
    (ratingsData : RatingsTable) (movies : Catalog) :
  let result := recommend k userRatings ratingsData movies in
  let neighbors := findNearestNeighbors (freshUserId ratingsData) (fst result) k in
  (forall p, In p (snd result) ->
     In (pMovieId p, mkItemMeta (pTitle p) (pGenres p)) movies /\
     predictedRating p = predictRating (pMovieId p) neighbors) /\
  ((List.length movies <= 10)%nat ->
   forall key meta, In (key, meta) movies -> findRating key userRatings = None ->
     In (mkPredicted key (title meta) (genres meta) (predictRating key neighbors))
        (snd result)).
Proof.
  cbv zeta. split.
  - intros p Hp. apply recommend_In in Hp as (H1 & _ & H3). auto.
  - intros Hlen key meta Hin Hnone. apply recommend_complete; assumption.
Qed.

Lemma recommend_entries_witness :
  In (mkPredicted 30 "Thirty" "Action"
        (predictRating 30
           (findNearestNeighbors (freshUserId Sample.corpus)
              (fst (recommend 2 Sample.newUser Sample.corpus Sample.catalog)) 2)))
     (snd (recommend 2 Sample.newUser Sample.corpus Sample.catalog)).
Proof.
  destruct (recommend_entries 2 Sample.newUser Sample.corpus Sample.catalog) as [_ H].
  apply (H ltac:(cbn; lia) 30%Z (mkItemMeta "Thirty" "Action")).
  - right. right. left. reflexivity.
  - reflexivity.
Defined.

(** X14.  A movie that nobody in the table rated comes out of the
    orchestrator, if at all, with the predicted rating [1]. *)
Theorem recommend_unrated_everywhere (k : nat) (userRatings : UserRatingVector)
    (ratingsData : RatingsTable) (movies : Catalog) (p : PredictedRating) :
  In p (snd (recommend k userRatings ratingsData movies)) ->
  (forall key v, In (key, v) ratingsData -> findRating (pMovieId p) v = None) ->
  predictedRating p = POne.
Proof.
  intros Hp Hnobody. apply recommend_In in Hp as (_ & Hnew & ->).
  rewrite predictRating_unfold, contributions_nil.
  - cbn. destruct (Rlt_dec 0 0) as [H|_]; [exfalso; lra|reflexivity].
  - intros n Hn. apply findNearestNeighbors_In_candidates, candidates_In in Hn.
    destruct Hn as (Hin & _). unfold recommend in Hin. cbn [fst] in Hin.
    apply set_In in Hin as [E|Hin].
    + injection E as _ E. rewrite E. exact Hnew.
    + apply (Hnobody _ _ Hin).
Qed.

Lemma recommend_unrated_everywhere_witness :
  predictRating 20
    (findNearestNeighbors (freshUserId [(KIdx 1, Sample.stranger)])
       (fst (recommend 10 [Sample.r 10 5] [(KIdx 1, Sample.stranger)] Sample.catalog)) 10)
  = POne.
Proof.
  apply (recommend_unrated_everywhere 10 [Sample.r 10 5] [(KIdx 1, Sample.stranger)]
           Sample.catalog
           (mkPredicted 20 "Twenty" "Comedy"
              (predictRating 20
                 (findNearestNeighbors (freshUserId [(KIdx 1, Sample.stranger)])
                    (fst (recommend 10 [Sample.r 10 5] [(KIdx 1, Sample.stranger)]
                            Sample.catalog)) 10)))).
  - apply (recommend_complete 10 [Sample.r 10 5] [(KIdx 1, Sample.stranger)]
             Sample.catalog 20 (mkItemMeta "Twenty" "Comedy")).
    + cbn. lia.
    + right. left. reflexivity.
    + reflexivity.
  - intros key v [E|[]]; injection E as _ <-; reflexivity.
Defined.



Lemma roundTenth_one : roundTenth 1 = 1.
Proof.
  replace 1 with (IZR 10 / 10) at 1 2 by lra. apply roundTenth_of_tenths.
Qed.

Lemma roundTenth_five : roundTenth 5 = 5.
Proof.
  replace 5 with (IZR 50 / 10) at 1 2 by lra. apply roundTenth_of_tenths.
Qed.

(** X16.  When every neighbour who rated the item has a positive
    similarity and a rating between 1 and 5, the prediction is between 1
    and 5 as well. *)
Theorem predictRating_on_scale (mid : Z) (neighbors : list NeighborRecord) :
  (forall p, In p (contributions mid neighbors) -> 0 < snd p /\ 1 <= fst p <= 5) ->
  1 <= toNumber (predictRating mid neighbors) <= 5.
Proof.
  intro H. rewrite predictRating_unfold.
  set (c := contributions mid neighbors) in *.
  destruct (Rlt_dec 0 (similaritySumOf c)) as [Hss|_]; [|cbn; lra].
  destruct (weighted_sum_bounds c 1 5) as [Hlo Hhi].
  - intros p Hp. apply H. exact Hp.
  - intros p Hp. apply H. exact Hp.
  - cbn [toNumber]. fold (roundTenth (weightedSumOf c / similaritySumOf c)).
    assert (Havg : 1 <= weightedSumOf c / similaritySumOf c <= 5).
    { split; apply Rmult_le_reg_r with (similaritySumOf c); try exact Hss;
        unfold Rdiv; rewrite Rmult_assoc, Rinv_l by lra; lra. }
    destruct Havg as [H1 H5].
    apply roundTenth_mono in H1, H5. rewrite roundTenth_one in H1.
    rewrite roundTenth_five in H5. lra.
Qed.

Lemma predictRating_on_scale_witness :
  1 <= toNumber (predictRating 30 Sample.quarter) <= 5.
Proof.
  apply (predictRating_on_scale 30 Sample.quarter).
  intros p [<-|[]]. cbn. lra.
Defined.


(** ** Ingestion *)

Lemma formatStep_get (acc : RatingsTable) (row : RatingRow) (key : PropKey) :
  Js.get (formatStep acc row) key =
  if Js.propKey_eqb (KIdx (rowUserId row)) key
  then Some (match Js.get acc key with Some v => v | None => [] end
             ++ [mkItemRating (rowMovieId row) (rowRating row)])
  else Js.get acc key.
Proof.
  unfold formatStep. set (k := KIdx (rowUserId row)).
  destruct (Js.propKey_eqb k key) eqn:E.
  - apply propKey_eqb_eq in E. subst key.
    destruct (Js.get acc k) as [v|] eqn:G.
    + rewrite G. apply get_set_same.
    + rewrite get_set_same. apply get_set_same.
  - assert (Hneq : key <> k).
    { intro H. subst key. rewrite propKey_eqb_refl in E. discriminate. }
    destruct (Js.get acc k) as [v|] eqn:G.
    + rewrite G. apply get_set_other. exact Hneq.
    + rewrite get_set_same. rewrite !get_set_other by exact Hneq. reflexivity.
Qed.

Lemma format_fold_get (rows : list RatingRow) (acc : RatingsTable) (u : N) :
  Js.get (fold_left formatStep rows acc) (KIdx u) =
  match Js.get acc (KIdx u), rowsOf u rows with
  | Some v, rs => Some (v ++ rs)
  | None, [] => None
  | None, rs => Some rs
  end.
Proof.
  revert acc. induction rows as [|row rows IH]; intro acc.
  - cbn. destruct (Js.get acc (KIdx u)); [rewrite app_nil_r|]; reflexivity.
  - cbn [fold_left]. rewrite IH, formatStep_get. unfold rowsOf. cbn [filter Js.propKey_eqb].
    destruct (N.eqb (rowUserId row) u); cbn [map].
    + destruct (Js.get acc (KIdx u)) as [v|].
      * rewrite <- app_assoc. reflexivity.
      * reflexivity.
    + reflexivity.
Qed.

Lemma format_fold_NaN (rows : list RatingRow) (acc : RatingsTable) :
  Js.get (fold_left formatStep rows acc) KNaN = Js.get acc KNaN.
Proof.
  revert acc. induction rows as [|row rows IH]; intro acc; [reflexivity|].
  cbn [fold_left]. rewrite IH, formatStep_get. reflexivity.
Qed.

(** X17.  [formatRatingsData] groups the rows by user: a user's vector
    holds that user's rows, in file order, and a user without row has no
    entry; there is no other key. *)
Theorem formatRatingsData_groups (ratings : list RatingRow) (u : N) :
  Js.get (formatRatingsData ratings) (KIdx u) =
    match rowsOf u ratings with
    | [] => None
    | rs => Some rs
    end /\
  Js.get (formatRatingsData ratings) KNaN = None.
Proof.
  unfold formatRatingsData. rewrite format_fold_get, format_fold_NaN.
  split; reflexivity.
Qed.

Ltac key_cases :=
  cbn [Js.keyBefore Js.propKey_eqb indexKey]; unfold Js.isIndex;
  repeat match goal with
         | |- context [N.ltb ?p ?q] => destruct (N.ltb_spec p q)
         | |- context [N.eqb ?p ?q] => destruct (N.eqb_spec p q)
         end;
  cbn [andb orb negb]; intros; subst;
  try discriminate; try reflexivity; try lia.

Lemma keyBefore_trans (a b c : PropKey) :
  Js.keyBefore a b = true -> Js.keyBefore b c = true -> Js.keyBefore a c = true.
Proof. destruct a as [x|], b as [y|], c as [z|]; key_cases. Qed.

Lemma keyBefore_total (a b : PropKey) :
  indexKey a = true -> indexKey b = true ->
  Js.keyBefore a b = false -> Js.propKey_eqb b a = false -> Js.keyBefore b a = true.
Proof. destruct a as [x|], b as [y|]; key_cases. Qed.

Lemma keyBefore_irrefl (a : PropKey) : Js.keyBefore a a = false.
Proof. destruct a as [x|]; key_cases. Qed.

Lemma set_enumerated {A : Type} (obj : list (PropKey * A)) (key : PropKey) (v : A) :
  indexKey key = true -> Forall (fun k => indexKey k = true) (map fst obj) ->
  enumerated (map fst obj) -> enumerated (map fst (Js.set obj key v)).
Proof.
  unfold enumerated. intro Hkey.
  induction obj as [|[k w] obj IH]; intros Hidx Hs; cbn.
  - constructor; constructor.
  - cbn [map fst] in Hs, Hidx. apply StronglySorted_inv in Hs as [Hrest Hk].
    apply Forall_cons_iff in Hidx as [Hik Hidx].
    destruct (Js.propKey_eqb k key) eqn:E.
    + apply propKey_eqb_eq in E. subst k. cbn. constructor; assumption.
    + destruct (Js.keyBefore key k) eqn:B; cbn.
      * constructor; [constructor; assumption|].
        constructor; [exact B|].
        rewrite Forall_forall in *. intros x Hx.
        apply (keyBefore_trans key k x B (Hk x Hx)).
      * constructor; [apply IH; assumption|].
        rewrite Forall_forall in *. intros x Hx.
        apply set_keys in Hx as [->|Hx]; [|apply Hk; exact Hx].
        apply keyBefore_total; assumption.
Qed.

Lemma set_indexKeys {A : Type} (obj : list (PropKey * A)) (key : PropKey) (v : A) :
  indexKey key = true -> Forall (fun k => indexKey k = true) (map fst obj) ->
  Forall (fun k => indexKey k = true) (map fst (Js.set obj key v)).
Proof.
  intros Hkey Hidx. rewrite Forall_forall in *. intros x Hx.
  apply set_keys in Hx as [->|Hx]; [exact Hkey|apply Hidx; exact Hx].
Qed.

Lemma formatStep_enumerated (acc : RatingsTable) (row : RatingRow) :
  Js.isIndex (rowUserId row) = true ->
  Forall (fun k => indexKey k = true) (keysOf acc) /\ enumerated (keysOf acc) ->
  Forall (fun k => indexKey k = true) (keysOf (formatStep acc row)) /\
  enumerated (keysOf (formatStep acc row)).
Proof.
  unfold formatStep, keysOf. intros Hrow [Hidx Hen].
  assert (Hkey : indexKey (KIdx (rowUserId row)) = true) by exact Hrow.
  destruct (Js.get acc (KIdx (rowUserId row))) as [v|] eqn:G.
  - rewrite G. split; [apply set_indexKeys|apply set_enumerated]; assumption.
  - rewrite get_set_same.
    split; [apply set_indexKeys, set_indexKeys|
            apply set_enumerated; [|apply set_indexKeys|apply set_enumerated]];
      assumption.
Qed.

Lemma enumerated_In_get {A : Type} (obj : list (PropKey * A)) (key : PropKey) (v : A) :
  enumerated (map fst obj) -> In (key, v) obj -> Js.get obj key = Some v.
Proof.
  unfold enumerated. induction obj as [|[k w] obj IH]; intros Hs Hin; [destruct Hin|].
  cbn [map fst] in Hs. apply StronglySorted_inv in Hs as [Hrest Hk]. cbn.
  destruct Hin as [E|Hin].
  - injection E as -> ->. rewrite propKey_eqb_refl. reflexivity.
  - destruct (Js.propKey_eqb k key) eqn:E.
    + apply propKey_eqb_eq in E. subst k. exfalso.
      rewrite Forall_forall in Hk.
      specialize (Hk key (in_map fst _ _ Hin)). cbn in Hk.
      rewrite keyBefore_irrefl in Hk. discriminate.
    + apply IH; assumption.
Qed.

Lemma enumerated_indices_ascending (keys : list PropKey) :
  Forall (fun k => indexKey k = true) keys -> enumerated keys -> ascending keys.
Proof.
  unfold enumerated, ascending. induction keys as [|k keys IH]; intros Hidx Hen.
  - exists []. split; [reflexivity|constructor].
  - apply Forall_cons_iff in Hidx as [Hk Hidx].
    apply StronglySorted_inv in Hen as [Hrest Hlt].
    destruct (IH Hidx Hrest) as (ids & -> & Hsorted).
    destruct k as [n|]; [|discriminate].
    exists (n :: ids). split; [reflexivity|].
    constructor; [exact Hsorted|].
    rewrite Forall_forall in *. intros i Hi.
    specialize (Hlt (KIdx i) (in_map KIdx _ _ Hi)).
    specialize (Hidx (KIdx i) (in_map KIdx _ _ Hi)).
    revert Hlt Hidx Hk. key_cases.
Qed.

Lemma formatRatingsData_enumerated (ratings : list RatingRow) :
  (forall row, In row ratings -> Js.isIndex (rowUserId row) = true) ->
  Forall (fun k => indexKey k = true) (keysOf (formatRatingsData ratings)) /\
  enumerated (keysOf (formatRatingsData ratings)).
Proof.
  unfold formatRatingsData. intro Hrows.
  assert (H : forall acc,
             Forall (fun k => indexKey k = true) (keysOf acc) /\ enumerated (keysOf acc) ->
             Forall (fun k => indexKey k = true) (keysOf (fold_left formatStep ratings acc)) /\
             enumerated (keysOf (fold_left formatStep ratings acc))).
  { induction ratings as [|row rows IH]; intros acc Ha; [exact Ha|].
    cbn [fold_left]. apply IH.
    - intros r Hr. apply Hrows. right. exact Hr.
    - apply formatStep_enumerated; [apply Hrows; left; reflexivity|exact Ha]. }
  apply H. split; constructor.
Qed.

(** X18.  When the user ids are array indices (below [2^32 - 1]), the table
    [formatRatingsData] builds lists the users in ascending order of id,
    each once, and no vector in it is empty. *)
Theorem formatRatingsData_ascending (ratings : list RatingRow) :
  (forall row, In row ratings -> (rowUserId row < 4294967295)%N) ->
  ascending (keysOf (formatRatingsData ratings)) /\
  forall key v, In (key, v) (formatRatingsData ratings) ->
    exists u, key = KIdx u /\ v = rowsOf u ratings /\ v <> [].
Proof.
  intro Hrows.
  destruct (formatRatingsData_enumerated ratings) as [Hidx Hen].
  { intros row Hr. apply N.ltb_lt, Hrows, Hr. }
  split; [apply enumerated_indices_ascending; assumption|].
  intros key v Hin. apply (enumerated_In_get _ _ _ Hen) in Hin.
  destruct key as [u|].
  - exists u. unfold formatRatingsData in Hin. rewrite format_fold_get in Hin.
    cbn [Js.get] in Hin. destruct (rowsOf u ratings) as [|r rs]; [discriminate|].
    injection Hin as <-. repeat split. discriminate.
  - unfold formatRatingsData in Hin. rewrite format_fold_NaN in Hin. discriminate.
Qed.

Lemma formatRatingsData_ascending_witness :
  exists u, KIdx 2 = KIdx u /\
            [Sample.r 10 5; Sample.r 20 4] = rowsOf u sampleRows /\
            [Sample.r 10 5; Sample.r 20 4] <> [].
Proof.
  destruct (formatRatingsData_ascending sampleRows) as [_ H].
  - intros row [<-|[<-|[<-|[]]]]; reflexivity.
  - apply H. right. left. reflexivity.
Defined.

(** ** Movie selection and rating collection *)

(** X19.  [selectRandomMovies] returns [numMovies] entries of the catalog,
    all of them when the catalog is smaller, and no movie twice. *)
Theorem selectRandomMovies_draws (shuffle : Catalog -> Catalog) (movies : Catalog)
    (numMovies : nat) :
  (forall l, Permutation l (shuffle l)) ->
  List.length (selectRandomMovies shuffle movies numMovies)
  = Nat.min numMovies (List.length movies) /\
  (forall entry, In entry (selectRandomMovies shuffle movies numMovies) ->
                 In entry movies) /\
  (NoDup (map fst movies) ->
   NoDup (map fst (selectRandomMovies shuffle movies numMovies))).
Proof.
  intro Hperm. unfold selectRandomMovies, Js.slice0. split; [|split].
  - rewrite length_firstn, <- (Permutation_length (Hperm movies)). reflexivity.
  - intros entry Hin. apply (Permutation_in _ (Permutation_sym (Hperm movies))).
    rewrite <- (firstn_skipn numMovies (shuffle movies)).
    apply in_or_app. left. exact Hin.
  - intro Hnd.
    assert (Hs : NoDup (map fst (shuffle movies))).
    { apply (Permutation_NoDup (Permutation_map fst (Hperm movies))). exact Hnd. }
    rewrite <- (firstn_skipn numMovies (shuffle movies)), map_app in Hs.
    apply NoDup_app_remove_r in Hs. exact Hs.
Qed.

Lemma selectRandomMovies_draws_witness :
  List.length (selectRandomMovies (@rev _) Sample.catalog 2) = 2%nat /\
  NoDup (map fst (selectRandomMovies (@rev _) Sample.catalog 2)).
Proof.
  destruct (selectRandomMovies_draws (@rev _) Sample.catalog 2) as (Hlen & _ & Hnd).
  - intro l. apply Permutation_rev.
  - split; [exact Hlen|]. apply Hnd.
    repeat constructor; cbn; intuition discriminate.
Defined.

Lemma outOfScale_false (x : R) : outOfScale (Some x) = false -> 1 <= x <= 5.
Proof.
  unfold outOfScale, Js.Rltb. intro H.
  destruct (Rlt_dec x 1), (Rlt_dec 5 x); try discriminate. lra.
Qed.

Lemma promptUntilValid_spec (answers : list Answer) :
  match promptUntilValid answers with
  | Some (x, rest) =>
      1 <= x <= 5 /\ onScale answers = Some x :: onScale rest /\
      exists skipped, answers = skipped ++ Some x :: rest /\ onScale skipped = []
  | None => onScale answers = []
  end.
Proof.
  induction answers as [|a answers IH]; [reflexivity|].
  cbn [promptUntilValid onScale filter].
  destruct (outOfScale a) eqn:E; cbn [negb].
  - fold (onScale answers).
    destruct (promptUntilValid answers) as [[x rest]|]; [|exact IH].
    destruct IH as (Hx & Hon & skipped & Ha & Hs).
    split; [exact Hx|split; [exact Hon|]].
    exists (a :: skipped). split; [rewrite Ha; reflexivity|].
    unfold onScale. cbn [filter]. rewrite E. exact Hs.
  - destruct a as [x|]; [|discriminate].
    split; [apply outOfScale_false; exact E|split; [reflexivity|]].
    exists []. split; reflexivity.
Qed.

Lemma onScale_app (a b : list Answer) : onScale (a ++ b) = onScale a ++ onScale b.
Proof. unfold onScale. apply filter_app. Qed.

Lemma getMovieRatings_spec (moviesToDisplay : Catalog) (answers : list Answer) :
  match getMovieRatings moviesToDisplay answers with
  | Some (userRatings, unread) =>
      map movieId userRatings = map fst moviesToDisplay /\
      (forall r, In r userRatings -> 1 <= rating r <= 5) /\
      exists read, answers = read ++ unread /\
                   onScale read = map (fun r => Some (rating r)) userRatings
  | None => (List.length (onScale answers) < List.length moviesToDisplay)%nat
  end.
Proof.
  revert answers. induction moviesToDisplay as [|movie others IH]; intro answers.
  - cbn. split; [reflexivity|split; [intros r []|]].
    exists []. split; reflexivity.
  - cbn [getMovieRatings].
    pose proof (promptUntilValid_spec answers) as Hp.
    destruct (promptUntilValid answers) as [[x answers']|].
    + destruct Hp as (Hx & Hon & skipped & Ha & Hs).
      specialize (IH answers').
      destruct (getMovieRatings others answers') as [[userRatings unread]|].
      * destruct IH as (Hids & Hvalid & read & Hr & Hread).
        split; [cbn; rewrite Hids; reflexivity|split].
        -- intros r [<-|Hr']; [exact Hx|apply Hvalid; exact Hr'].
        -- exists (skipped ++ Some x :: read). split.
           ++ rewrite Ha, Hr, <- app_assoc. reflexivity.
           ++ rewrite onScale_app, Hs. cbn [app map rating].
              unfold onScale at 1. cbn [filter].
              assert (E : outOfScale (Some x) = false).
              { unfold outOfScale, Js.Rltb.
                destruct (Rlt_dec x 1), (Rlt_dec 5 x); try reflexivity; lra. }
              rewrite E. cbn [negb]. fold (onScale read). rewrite Hread. reflexivity.
      * rewrite Hon. cbn [List.length]. lia.
    + rewrite Hp. cbn. lia.
Qed.

(** X20.  The ratings [getMovieRatings] collects are, in order, the answers
    between 1 and 5 among those it read, one for each movie shown; every
    other answer is asked again. *)
Theorem getMovieRatings_collects (moviesToDisplay : Catalog) (answers unread : list Answer)
    (userRatings : UserRatingVector) :
  getMovieRatings moviesToDisplay answers = Some (userRatings, unread) ->
  map movieId userRatings = map fst moviesToDisplay /\
  (forall r, In r userRatings -> 1 <= rating r <= 5) /\
  exists read, answers = read ++ unread /\
               onScale read = map (fun r => Some (rating r)) userRatings.
Proof.
  intro H. pose proof (getMovieRatings_spec moviesToDisplay answers) as Hs.
  rewrite H in Hs. exact Hs.
Qed.

Lemma getMovieRatings_collects_witness :
  map movieId [Sample.r 10 5; Sample.r 20 3] = map fst (firstn 2 Sample.catalog) /\
  (forall r, In r [Sample.r 10 5; Sample.r 20 3] -> 1 <= rating r <= 5).
Proof.
  destruct (getMovieRatings_collects (firstn 2 Sample.catalog) sampleAnswers
              [Some 4] [Sample.r 10 5; Sample.r 20 3]) as (H1 & H2 & _).
  - repeat (progress
              (cbn [firstn Sample.catalog getMovieRatings sampleAnswers
                    promptUntilValid outOfScale orb fst];
               repeat match goal with
                      | |- context [Js.Rltb ?a ?b] =>
                          first [rewrite (Rltb_true a b) by lra
                                |rewrite (Rltb_false a b) by lra]
                      end)).
    reflexivity.
  - split; assumption.
Defined.

(** X21.  [getMovieRatings] comes to an end exactly when the input holds at
    least as many answers between 1 and 5 as there are movies to rate. *)
Theorem getMovieRatings_ends (moviesToDisplay : Catalog) (answers : list Answer) :
  (exists result, getMovieRatings moviesToDisplay answers = Some result) <->
  (List.length moviesToDisplay <= List.length (onScale answers))%nat.
Proof.
  pose proof (getMovieRatings_spec moviesToDisplay answers) as Hs.
  destruct (getMovieRatings moviesToDisplay answers) as [[userRatings unread]|].
  - destruct Hs as (Hids & _ & read & Ha & Hread).
    split; [intros _|intros _; eexists; reflexivity].
    rewrite Ha, onScale_app, length_app, Hread, length_map.
    rewrite <- (length_map fst moviesToDisplay), <- Hids, length_map. lia.
  - split; [intros [result H]; discriminate|intro H; lia].
Qed.

Ltac eval_answers :=
  repeat (progress
            (cbn [firstn rev app Sample.catalog getMovieRatings sampleAnswers
                  promptUntilValid outOfScale onScale filter negb orb fst
                  selectRandomMovies Js.slice0 numMoviesToDisplay];
             repeat match goal with
                    | |- context [Js.Rltb ?a ?b] =>
                        first [rewrite (Rltb_true a b) by lra
                              |rewrite (Rltb_false a b) by lra]
                    end)).

Lemma getMovieRatings_ends_witness :
  exists result, getMovieRatings (firstn 2 Sample.catalog) sampleAnswers = Some result.
Proof.
  apply (getMovieRatings_ends (firstn 2 Sample.catalog) sampleAnswers).
  eval_answers. cbv [List.length]. lia.
Defined.

Lemma unratedMovies_all_rated (userRatings : UserRatingVector) (movies : Catalog) :
  (forall entry, In entry movies -> In (fst entry) (map movieId userRatings)) ->
  unratedMovies userRatings movies = [].
Proof.
  intro Hall. unfold unratedMovies.
  induction movies as [|entry movies IH]; [reflexivity|]. cbn [filter].
  assert (E : existsb (fun r => Z.eqb (movieId r) (fst entry)) userRatings = true).
  { apply existsb_exists.
    destruct (proj1 (in_map_iff movieId userRatings (fst entry))
                    (Hall entry (or_introl eq_refl))) as (r & Hr & Hin).
    exists r. split; [exact Hin|apply Z.eqb_eq; exact Hr]. }
  rewrite E. cbn [negb]. apply IH. intros e He. apply Hall. right. exact He.
Qed.

(** X22.  The command-line program never recommends a movie it showed to
    the user, and with at most twenty movies in the catalog, all of which
    are then shown and rated, it recommends nothing. *)
Theorem runMain_recommends_unseen (shuffle : Catalog -> Catalog) (answers : list Answer)
    (ratingsData ratingsData' : RatingsTable) (movies : Catalog)
    (recs : list PredictedRating) :
  (forall l, Permutation l (shuffle l)) ->
  runMain shuffle answers ratingsData movies = Some (ratingsData', recs) ->
  (forall p, In p recs ->
     ~ In (pMovieId p)
          (map fst (selectRandomMovies shuffle movies numMoviesToDisplay))) /\
  ((List.length movies <= numMoviesToDisplay)%nat -> recs = []).
Proof.
  intros Hperm Hrun. unfold runMain in Hrun. cbv zeta in Hrun.
  set (shown := selectRandomMovies shuffle movies numMoviesToDisplay) in *.
  pose proof (getMovieRatings_spec shown answers) as Hs.
  destruct (getMovieRatings shown answers) as [[userRatings unread]|]; [|discriminate].
  destruct Hs as (Hids & _). injection Hrun as _ <-.
  unfold main, recommend. cbn [snd]. split.
  - intros p Hp. apply topRecommendations_In in Hp.
    unfold predictedMovies in Hp. apply in_map_iff in Hp as (m & <- & Hm).
    cbn [pMovieId]. rewrite <- Hids. apply (unratedMovies_unrated _ _ _ Hm).
  - intro Hlen. rewrite unratedMovies_all_rated; [reflexivity|].
    intros entry Hin. rewrite Hids. apply in_map.
    subst shown. unfold selectRandomMovies. rewrite slice0_all.
    + apply (Permutation_in _ (Hperm movies)). exact Hin.
    + rewrite <- (Permutation_length (Hperm movies)). exact Hlen.
Qed.

Lemma runMain_recommends_unseen_witness :
  snd (main [Sample.r 30 5; Sample.r 20 3; Sample.r 10 4] Sample.corpus Sample.catalog)
  = [].
Proof.
  destruct (runMain_recommends_unseen (@rev _) sampleAnswers Sample.corpus
              (fst (main [Sample.r 30 5; Sample.r 20 3; Sample.r 10 4]
                         Sample.corpus Sample.catalog))
              Sample.catalog
              (snd (main [Sample.r 30 5; Sample.r 20 3; Sample.r 10 4]
                         Sample.corpus Sample.catalog))) as [_ H].
  - intro l. apply Permutation_rev.
  - unfold runMain. eval_answers.
    destruct (main _ Sample.corpus Sample.catalog). reflexivity.
  - apply H. cbv [List.length Sample.catalog numMoviesToDisplay]. lia.
Defined.

Lemma insertDesc_tied_front {A : Type} (key : A -> R) (x : A) (l : list A) :
  (forall y, In y l -> key y <= key x) -> Js.insertDesc key x l = x :: l.
Proof.
  intro H. destruct l as [|y l]; [reflexivity|]. cbn.
  rewrite Rltb_false; [reflexivity|]. apply H. left. reflexivity.
Qed.

Lemma sortDescBy_constant {A : Type} (key : A -> R) (c : R) (l : list A) :
  (forall x, In x l -> key x = c) -> Js.sortDescBy key l = l.
Proof.
  induction l as [|x l IH]; intro H; [reflexivity|].
  cbn [Js.sortDescBy fold_right]. fold (Js.sortDescBy key l).
  rewrite IH by (intros y Hy; apply H; right; exact Hy).
  apply insertDesc_tied_front. intros y Hy.
  rewrite (H y (or_intror Hy)), (H x (or_introl eq_refl)). lra.
Qed.

(** X23.  For a target that is not in the table, or has no rating, every
    similarity is [0] and the neighbours are the first [k] candidates in
    table order. *)
Theorem findNearestNeighbors_unknown_target (userId : JsId) (ratingsData : RatingsTable)
    (k : nat) :
  targetRatings userId ratingsData = [] ->
  findNearestNeighbors userId ratingsData k =
  firstn k (map (fun entry => mkNeighbor (fst entry) 0 (snd entry))
                (filter (fun entry => Js.strictNeq (fst entry) userId) ratingsData)).
Proof.
  intro Hnone. rewrite findNearestNeighbors_unfold. unfold candidates. rewrite Hnone.
  assert (Hzero : forall v, calculateSimilarity [] v = 0)
    by (intro v; apply calculateSimilarity_no_common; reflexivity).
  rewrite (map_ext _ (fun entry => mkNeighbor (fst entry) 0 (snd entry)))
    by (intro e; rewrite Hzero; reflexivity).
  rewrite (sortDescBy_constant similarity 0); [reflexivity|].
  intros x Hx. apply in_map_iff in Hx as (e & <- & _). reflexivity.
Qed.

Lemma findNearestNeighbors_unknown_target_witness :
  findNearestNeighbors (IdNum 9) Sample.corpus 2 =
  [mkNeighbor (KIdx 1) 0 Sample.user1; mkNeighbor (KIdx 2) 0 Sample.user2].
Proof.
  apply (findNearestNeighbors_unknown_target (IdNum 9) Sample.corpus 2).
  reflexivity.
Defined.
